(** * movie-engine: the rating de-duplication and the low-activity filter

    A shallow embedding of [scripts/dedup_ratings.py] and
    [scripts/filter_low_activity_users.py], with the properties of the
    newest-wins reduction, of the recency parser and of the two-pass filter.

    Python integers are [Z], strings are [string], floats are the IEEE
    binary64 values of [spec_float].  The process state (file system,
    standard streams) is threaded through a state-and-exception monad.  The
    [best] dictionary of the reduction is an association list in insertion
    order, because the order of a Python [dict] decides the order of the
    output file. *)

From Stdlib Require Import ZArith String Ascii List SpecFloat Sorted Permutation Lia.
From stdpp Require Import base option list strings pretty gmap.

Local Open Scope string_scope.
Local Open Scope list_scope.
Local Open Scope Z_scope.

(** ** Python runtime: exceptions, process state, the execution monad *)

Module Py.

(** The exceptions the two scripts can meet. [ValueError] carries the
    message where the scripts build one from plain text. *)
Inductive exn : Type :=
  | SystemExit (code : Z)
  | FileNotFoundError (arg : string)
      (* raise FileNotFoundError(arg), by the script *)
  | NoSuchFileOrDirectory (path : string)
      (* the FileNotFoundError of the operating system, errno 2 *)
  | ValueError (msg : string)
  | OverflowError (msg : string)
  | MissingColumns (available : list string)
      (* ValueError(f"Missing expected columns. Available: {reader.fieldnames}") *)
  | UserColumnNotFound (user_col : string) (available : list string)
      (* ValueError(f"user column '{user_col}' not found in header: {reader.fieldnames}") *)
  | FieldsNotInFieldnames (extra : list string).
      (* ValueError raised by csv.DictWriter for keys outside its fieldnames *)

Inductive result (A : Type) : Type :=
  | Raise (e : exn)
  | Return (a : A).
Arguments Raise {A} e.
Arguments Return {A} a.

(** A file as [csv.reader] presents it: the list of its records, each a list
    of cells; the first record is the header. *)
Abbreviation csv_file := (list (list string)).

Record world : Type := World {
  files : gmap string csv_file;   (* path -> content *)
  dirs : gset string;             (* directories made by os.makedirs *)
  stderr : list string;           (* texts written to sys.stderr, oldest first *)
  stdout : list string            (* texts written to sys.stdout, oldest first *)
}.

Definition M (A : Type) : Type := world -> result A * world.

Global Instance M_ret : MRet M := fun A a w => (Return a, w).

Global Instance M_bind : MBind M := fun A B f m w =>
  match m w with
  | (Return a, w') => f a w'
  | (Raise e, w') => (Raise e, w')
  end.

Definition raise {A} (e : exn) : M A := fun w => (Raise e, w).

(** [SystemExit] is the one exception here that is not an [Exception]. *)
Definition is_Exception (e : exn) : bool :=
  match e with
  | SystemExit _ => false
  | _ => true
  end.

(** [try: m except Exception as e: h(e)] *)
Definition try_except {A} (m : M A) (h : exn -> M A) : M A :=
  fun w => match m w with
           | (Return a, w') => (Return a, w')
           | (Raise e, w') => if is_Exception e then h e w' else (Raise e, w')
           end.

(** [for x in l: s = body(s, x)] with the loop-carried variables in [s]. *)
Fixpoint for_each {A S} (body : S -> A -> M S) (l : list A) (s : S) : M S :=
  match l with
  | [] => mret s
  | x :: l' => s' ← body s x; for_each body l' s'
  end.

Definition newline : string := String (ascii_of_nat 10) EmptyString.

Definition stderr_write (text : string) : M unit :=
  fun w => (Return tt,
            {| files := files w; dirs := dirs w;
               stderr := stderr w ++ [text]; stdout := stdout w |}).

(** [print(text)] *)
Definition print (text : string) : M unit :=
  fun w => (Return tt,
            {| files := files w; dirs := dirs w;
               stderr := stderr w; stdout := stdout w ++ [text +:+ newline] |}).

(** [print(text, file=sys.stderr)] *)
Definition print_stderr (text : string) : M unit :=
  stderr_write (text +:+ newline).

(** *** The built-in conversions

    [int(str)], [float(str)] and [repr(str)] are the interpreter's; the
    development is parametric in them.  [None] stands for the [ValueError]
    the two conversions raise. *)
Class Builtins : Type := {
  int_of_str : string -> option Z;
  float_of_str : string -> option spec_float;
  repr_of_str : string -> string
}.

Definition py_int `{Builtins} (value : string) : M Z :=
  match int_of_str value with
  | Some n => mret n
  | None => raise (ValueError "invalid literal for int() with base 10")
  end.

Definition py_float `{Builtins} (value : string) : M spec_float :=
  match float_of_str value with
  | Some x => mret x
  | None => raise (ValueError "could not convert string to float")
  end.

(** [int(x)] for a float [x]: the integer part, rounding toward zero;
    infinities and NaN are refused. *)
Definition int_of_float (x : spec_float) : M Z :=
  match x with
  | S754_zero _ => mret 0
  | S754_infinity _ => raise (OverflowError "cannot convert float infinity to integer")
  | S754_nan => raise (ValueError "cannot convert float NaN to integer")
  | S754_finite s m e =>
      let magnitude :=
        if 0 <=? e then Z.shiftl (Zpos m) e else Z.shiftr (Zpos m) (- e) in
      mret (if s then - magnitude else magnitude)
  end.

(** [repr] of a list of strings. *)
Definition repr_of_list `{Builtins} (l : list string) : string :=
  "[" +:+ String.concat ", " (map repr_of_str l) +:+ "]".

(** [str(e)], as an f-string shows an exception. *)
Definition exn_str `{Builtins} (e : exn) : string :=
  match e with
  | SystemExit code => pretty code
  | FileNotFoundError arg => arg
  | NoSuchFileOrDirectory path =>
      "[Errno 2] No such file or directory: " +:+ repr_of_str path
  | ValueError msg => msg
  | OverflowError msg => msg
  | MissingColumns available =>
      "Missing expected columns. Available: " +:+ repr_of_list available
  | UserColumnNotFound user_col available =>
      "user column '" +:+ user_col +:+ "' not found in header: "
      +:+ repr_of_list available
  | FieldsNotInFieldnames extra =>
      "dict contains fields not in fieldnames: "
      +:+ String.concat ", " (map repr_of_str extra)
  end.

End Py.

(** ** A reference instance of the built-in conversions, for ASCII text

    [int(str)]: optional surrounding white space, an optional sign, decimal
    digits, single underscores between digits.  [float(str)]: the same
    frame around a decimal literal with optional fraction and exponent, or
    [inf], [infinity], [nan] in any letter case; the decimal value is
    rounded to the nearest binary64, ties to even.  (The interpreter's
    optional cap on the number of digits of [int(str)] is not part of this
    instance; the theorems below hold for every instance.) *)

Module PyAscii.

Definition code (c : ascii) : Z := Z.of_nat (nat_of_ascii c).

Definition is_space (c : ascii) : bool :=
  ((9 <=? code c) && (code c <=? 13)) || (code c =? 32).

Definition digit_of (c : ascii) : option Z :=
  if (48 <=? code c) && (code c <=? 57) then Some (code c - 48) else None.

Definition is_underscore (c : ascii) : bool := code c =? 95.

Definition lower (c : ascii) : ascii :=
  if (65 <=? code c) && (code c <=? 90)
  then ascii_of_nat (nat_of_ascii c + 32) else c.

Fixpoint lstrip (s : list ascii) : list ascii :=
  match s with
  | c :: s' => if is_space c then lstrip s' else s
  | [] => []
  end.

Definition strip (s : list ascii) : list ascii :=
  rev (lstrip (rev (lstrip s))).

(** The digits that follow a first digit: [(["_"] digit)*].  Returns the
    accumulated value, the number of digits read, and what is left. *)
Fixpoint digits_tail (s : list ascii) (acc : Z) (cnt : nat)
  : Z * nat * list ascii :=
  match s with
  | [] => (acc, cnt, s)
  | c :: s' =>
      match digit_of c with
      | Some d => digits_tail s' (10 * acc + d) (S cnt)
      | None =>
          if is_underscore c then
            match s' with
            | c2 :: s'' =>
                match digit_of c2 with
                | Some d => digits_tail s'' (10 * acc + d) (S cnt)
                | None => (acc, cnt, s)
                end
            | [] => (acc, cnt, s)
            end
          else (acc, cnt, s)
      end
  end.

(** [digitpart ::= digit (["_"] digit)*] *)
Definition digitpart (s : list ascii) : option (Z * nat * list ascii) :=
  match s with
  | c :: s' =>
      match digit_of c with
      | Some d => Some (digits_tail s' d 1%nat)
      | None => None
      end
  | [] => None
  end.

(** An optional sign; [true] is minus. *)
Definition sign (s : list ascii) : bool * list ascii :=
  match s with
  | c :: s' =>
      if code c =? 45 then (true, s')
      else if code c =? 43 then (false, s')
      else (false, s)
  | [] => (false, s)
  end.

Definition int_of_str (value : string) : option Z :=
  let '(neg, s) := sign (strip (list_ascii_of_string value)) in
  match digitpart s with
  | Some (n, _, []) => Some (if neg then - n else n)
  | _ => None
  end.

(** The binary64 nearest to [m * 10 ^ e10], for [m > 0]. *)
Definition binary64_of_decimal (neg : bool) (m : Z) (e10 : Z) : spec_float :=
  match m with
  | Zpos _ =>
      if 0 <=? e10 then
        binary_normalize 53 1024 (if neg then - (m * 10 ^ e10) else m * 10 ^ e10) 0 neg
      else
        let '(q, e, l) := SFdiv_core_binary 53 1024 m 0 (10 ^ (- e10)) 0 in
        binary_round_aux 53 1024 neg q e l
  | _ => S754_zero neg
  end.

(** [exponent ::= ("e" | "E") [sign] digitpart]; absent exponent is 0. *)
Definition exponent (s : list ascii) : option (Z * list ascii) :=
  match s with
  | c :: s' =>
      if code (lower c) =? 101 then
        let '(neg, s'') := sign s' in
        match digitpart s'' with
        | Some (n, _, rest) => Some (if neg then - n else n, rest)
        | None => None
        end
      else Some (0, s)
  | [] => Some (0, s)
  end.

(** [number ::= [digitpart] "." digitpart | digitpart ["."]], then the
    exponent.  Returns the digits as one integer and the decimal exponent. *)
Definition floatnumber (s : list ascii) : option (Z * Z * list ascii) :=
  let after_fraction (i : Z) (some_int : bool) (s1 : list ascii) :=
    match s1 with
    | c :: s2 =>
        if code c =? 46 then
          match digitpart s2 with
          | Some (f, k, s3) => Some (i * 10 ^ Z.of_nat k + f, - Z.of_nat k, s3)
          | None => if some_int then Some (i, 0, s2) else None
          end
        else if some_int then Some (i, 0, s1) else None
    | [] => if some_int then Some (i, 0, s1) else None
    end in
  let mantissa :=
    match digitpart s with
    | Some (i, _, s1) => after_fraction i true s1
    | None => after_fraction 0 false s
    end in
  match mantissa with
  | Some (m, e, s3) =>
      match exponent s3 with
      | Some (x, rest) => Some (m, e + x, rest)
      | None => None
      end
  | None => None
  end.

Definition float_of_str (value : string) : option spec_float :=
  let '(neg, s) := sign (strip (list_ascii_of_string value)) in
  let word := string_of_list_ascii (map lower s) in
  if bool_decide (word = "inf") || bool_decide (word = "infinity")
  then Some (S754_infinity neg)
  else if bool_decide (word = "nan") then Some S754_nan
  else
    match floatnumber s with
    | Some (m, e10, []) => Some (binary64_of_decimal neg m e10)
    | _ => None
    end.

(** [repr(str)]: quoted with apostrophes, or with double quotes when the
    text holds an apostrophe and no double quote; backslash, the chosen
    quote, tab, line feed and carriage return are escaped,
    other control characters are written in hexadecimal. *)
Definition hex_digit (n : Z) : ascii :=
  ascii_of_nat (Z.to_nat (if n <? 10 then 48 + n else 87 + n)).

Definition repr_char (quote : ascii) (c : ascii) : string :=
  let backslash := ascii_of_nat 92 in
  if bool_decide (c = backslash) || bool_decide (c = quote)
  then String backslash (String c EmptyString)
  else if code c =? 9 then String backslash "t"
  else if code c =? 10 then String backslash "n"
  else if code c =? 13 then String backslash "r"
  else if (code c <? 32) || (code c =? 127)
  then String backslash
         (String "x" (String (hex_digit (code c / 16))
                        (String (hex_digit (code c mod 16)) EmptyString)))
  else String c EmptyString.

Definition repr_of_str (s : string) : string :=
  let single := ascii_of_nat 39 in
  let double := ascii_of_nat 34 in
  let cs := list_ascii_of_string s in
  let quote :=
    if bool_decide (single ∈ cs) && negb (bool_decide (double ∈ cs))
    then double else single in
  String quote
    (foldr (fun c acc => repr_char quote c +:+ acc) (String quote EmptyString) cs).

Definition builtins : Py.Builtins :=
  {| Py.int_of_str := int_of_str;
     Py.float_of_str := float_of_str;
     Py.repr_of_str := repr_of_str |}.

End PyAscii.


(** ** Dictionaries, CSV files and paths *)

Module Csv.
Import Py.

(** A Python [dict]: an association list without repeated keys, in
    insertion order.  Assigning to a key that is present keeps its place. *)
Section dict.
Context {K V : Type} `{EqDecision K}.

Fixpoint dict_get (d : list (K * V)) (k : K) : option V :=
  match d with
  | [] => None
  | (k', v) :: d' => if decide (k = k') then Some v else dict_get d' k
  end.

Fixpoint dict_set (d : list (K * V)) (k : K) (v : V) : list (K * V) :=
  match d with
  | [] => [(k, v)]
  | (k', v') :: d' =>
      if decide (k = k') then (k, v) :: d' else (k', v') :: dict_set d' k v
  end.

Definition dict_keys (d : list (K * V)) : list K := map fst d.

(** [dict(pairs)] *)
Definition dict (pairs : list (K * V)) : list (K * V) :=
  foldl (fun d kv => dict_set d (fst kv) (snd kv)) [] pairs.

(** What [dict_set] does to the list of keys: an absent key goes to the
    end. *)
Definition add_key (ks : list K) (k : K) : list K :=
  if decide (k ∈ ks) then ks else ks ++ [k].
End dict.

(** A row as [csv.DictReader] yields it: column name to cell. *)
Definition row : Type := list (string * string).

(** [row.get(col, default)] with the empty string as default. *)
Definition row_get (r : row) (col : string) : string :=
  default EmptyString (dict_get r col).

(** [csv.DictReader(fh).fieldnames]: the first record, [None] for a file
    without records. *)
Definition DictReader_fieldnames (f : csv_file) : option (list string) :=
  head f.

(** The rows [csv.DictReader(fh)] iterates over: blank records are skipped,
    every other record is [dict(zip(fieldnames, record))].  Records are
    taken to have as many cells as the header; the padding of shorter and
    the overflow of longer records are outside the model. *)
Definition DictReader_rows (f : csv_file) : list row :=
  match f with
  | [] => []
  | fieldnames :: records =>
      map (fun record => dict (combine fieldnames record))
          (filter (fun record => record <> []) records)
  end.

Definition set_files (fs : gmap string csv_file) (w : world) : world :=
  {| files := fs; dirs := dirs w; stderr := stderr w; stdout := stdout w |}.

(** [os.path.exists(path)] *)
Definition path_exists (path : string) : M bool :=
  fun w => (Return (bool_decide (is_Some (files w !! path))), w).

(** [open(path)] for reading, the whole content at once. *)
Definition open_read (path : string) : M csv_file :=
  fun w => match files w !! path with
           | Some f => (Return f, w)
           | None => (Raise (NoSuchFileOrDirectory path), w)
           end.

(** [open(path, "w")]: the file is created or emptied. *)
Definition open_write (path : string) : M unit :=
  fun w => (Return tt, set_files (<[path := []]> (files w)) w).

(** One more record at the end of the file. *)
Definition write_record (path : string) (record : list string) : M unit :=
  fun w => (Return tt,
            set_files (alter (fun f => f ++ [record]) path (files w)) w).

(** [csv.DictWriter(fh, fieldnames).writerow(r)] with the default
    [extrasaction] (raise) and [restval] (the empty string). *)
Definition DictWriter_writerow (path : string) (fieldnames : list string)
    (r : row) : M unit :=
  let wrong_fields :=
    filter (fun k => k ∉ fieldnames) (dict_keys r) in
  match wrong_fields with
  | [] => write_record path (map (row_get r) fieldnames)
  | _ => raise (FieldsNotInFieldnames wrong_fields)
  end.

(** [writeheader()] is [writerow(dict(zip(fieldnames, fieldnames)))]. *)
Definition DictWriter_writeheader (path : string) (fieldnames : list string)
    : M unit :=
  DictWriter_writerow path fieldnames (dict (combine fieldnames fieldnames)).

(** [os.path.dirname], POSIX flavour: the text up to the last slash,
    without trailing slashes unless it consists of slashes only. *)
Definition is_slash (c : ascii) : bool := bool_decide (c = ascii_of_nat 47).

Fixpoint upto_last_slash (p : string) : option string :=
  match p with
  | EmptyString => None
  | String c t =>
      match upto_last_slash t with
      | Some h => Some (String c h)
      | None => if is_slash c then Some (String c EmptyString) else None
      end
  end.

Fixpoint rstrip_slashes (s : string) : string :=
  match s with
  | EmptyString => EmptyString
  | String c t =>
      match rstrip_slashes t with
      | EmptyString => if is_slash c then EmptyString else String c EmptyString
      | t' => String c t'
      end
  end.

Definition dirname (p : string) : string :=
  match upto_last_slash p with
  | None => EmptyString
  | Some head =>
      match rstrip_slashes head with
      | EmptyString => head     (* slashes only *)
      | stripped => stripped
      end
  end.

(** [os.makedirs(d, exist_ok=True)]: refuses the empty path, otherwise the
    directory exists afterwards. *)
Definition makedirs (d : string) : M unit :=
  fun w =>
    if decide (d = EmptyString)
    then (Raise (NoSuchFileOrDirectory d), w)
    else (Return tt,
          {| files := files w; dirs := {[ d ]} ∪ dirs w;
             stderr := stderr w; stdout := stdout w |}).

End Csv.

(** ** scripts/dedup_ratings.py *)

Module DedupRatings.
Import Py Csv.

Record Namespace : Type := {
  input : string;
  output : string;
  user_col : string;
  item_col : string;
  timestamp_col : string;
  rating_col : string;
  keep_order : bool
}.

(** The values [parse_args] starts from: the [default=] of every option,
    [False] for the [store_true] flag.  [--input] and [--output] are
    required and have none. *)
Definition defaults : Namespace :=
  {| input := EmptyString; output := EmptyString;
     user_col := "userId"; item_col := "movieId";
     timestamp_col := "timestamp"; rating_col := "rating";
     keep_order := false |}.

(** The options in their plain form, [--flag value], each flag spelled in
    full; the last occurrence wins.  The two booleans record that
    [--input] and [--output] were seen. *)
Fixpoint parse_options (argv : list string) (ns : Namespace)
    (seen_input seen_output : bool) : option (Namespace * bool * bool) :=
  match argv with
  | [] => Some (ns, seen_input, seen_output)
  | flag :: rest =>
      if decide (flag = "--keep-order") then
        parse_options rest
          {| input := input ns; output := output ns; user_col := user_col ns;
             item_col := item_col ns; timestamp_col := timestamp_col ns;
             rating_col := rating_col ns; keep_order := true |}
          seen_input seen_output
      else
        match rest with
        | [] => None
        | value :: rest' =>
            if decide (flag = "--input") then
              parse_options rest'
                {| input := value; output := output ns; user_col := user_col ns;
                   item_col := item_col ns; timestamp_col := timestamp_col ns;
                   rating_col := rating_col ns; keep_order := keep_order ns |}
                true seen_output
            else if decide (flag = "--output") then
              parse_options rest'
                {| input := input ns; output := value; user_col := user_col ns;
                   item_col := item_col ns; timestamp_col := timestamp_col ns;
                   rating_col := rating_col ns; keep_order := keep_order ns |}
                seen_input true
            else if decide (flag = "--user-col") then
              parse_options rest'
                {| input := input ns; output := output ns; user_col := value;
                   item_col := item_col ns; timestamp_col := timestamp_col ns;
                   rating_col := rating_col ns; keep_order := keep_order ns |}
                seen_input seen_output
            else if decide (flag = "--item-col") then
              parse_options rest'
                {| input := input ns; output := output ns; user_col := user_col ns;
                   item_col := value; timestamp_col := timestamp_col ns;
                   rating_col := rating_col ns; keep_order := keep_order ns |}
                seen_input seen_output
            else if decide (flag = "--timestamp-col") then
              parse_options rest'
                {| input := input ns; output := output ns; user_col := user_col ns;
                   item_col := item_col ns; timestamp_col := value;
                   rating_col := rating_col ns; keep_order := keep_order ns |}
                seen_input seen_output
            else if decide (flag = "--rating-col") then
              parse_options rest'
                {| input := input ns; output := output ns; user_col := user_col ns;
                   item_col := item_col ns; timestamp_col := timestamp_col ns;
                   rating_col := value; keep_order := keep_order ns |}
                seen_input seen_output
            else None
        end
  end.

(** [parse_args(argv)]; an argument vector that [argparse] refuses ends the
    program with status 2. *)
Definition parse_args (argv : list string) : M Namespace :=
  match parse_options argv defaults false false with
  | Some (ns, true, true) => mret ns
  | _ => raise (SystemExit 2)
  end.

Definition key : Type := string * string.
Definition entry : Type := Z * row.
Definition table : Type := list (key * entry).

(** The body of the scan on one row, lines 96 to 103: the retention rule. *)
Definition retention_insert (best : table) (k : key) (ts : Z) (r : row)
    : table :=
  match dict_get best k with
  | None => dict_set best k (ts, r)
  | Some (existing_ts, _) =>
      if ts >=? existing_ts then dict_set best k (ts, r) else best
  end.

(** [items.sort(key=lambda it: it[1][0])]: ascending in the stored
    timestamp, stable. *)
Fixpoint insert_by_ts (x : key * entry) (l : list (key * entry))
    : list (key * entry) :=
  match l with
  | [] => [x]
  | y :: l' =>
      if fst (snd x) <=? fst (snd y) then x :: l else y :: insert_by_ts x l'
  end.

Definition sort_by_ts (items : list (key * entry)) : list (key * entry) :=
  foldr insert_by_ts [] items.

Section with_builtins.
Context `{Builtins}.

Definition to_int_safe (value : string) : M Z :=
  try_except (py_int value) (fun _ =>
    try_except (x ← py_float value; int_of_float x) (fun _ =>
      stderr_write ("Warning: could not convert timestamp value '" +:+ value
                    +:+ "' to int; using 0" +:+ newline);;
      mret 0)).

(** One turn of [for row in reader], with [best] and [total] carried. *)
Definition scan_row (user_col item_col ts_col : string)
    (st : table * nat) (r : row) : M (table * nat) :=
  let '(best, total) := st in
  let total := S total in
  let user := row_get r user_col in
  let item := row_get r item_col in
  let ts_raw := row_get r ts_col in
  ts ← to_int_safe ts_raw;
  let k := (user, item) in
  mret (retention_insert best k ts r, total).

Definition dedup_ratings (inpath outpath user_col item_col ts_col
    rating_col : string) (keep_order : bool) : M (nat * nat) :=
  present ← path_exists inpath;
  if negb present then
    stderr_write ("Error: input file does not exist: " +:+ inpath
                  +:+ newline);;
    raise (FileNotFoundError inpath)
  else
    fh ← open_read inpath;
    match DictReader_fieldnames fh with
    | None => raise (ValueError "Input CSV has no header")
    | Some fieldnames =>
        if bool_decide (user_col ∉ fieldnames)
           || bool_decide (item_col ∉ fieldnames)
           || bool_decide (ts_col ∉ fieldnames)
           || bool_decide (rating_col ∉ fieldnames)
        then raise (MissingColumns fieldnames)
        else
          '(best, total) ← for_each (scan_row user_col item_col ts_col)
                             (DictReader_rows fh) ([], 0%nat);
          makedirs (dirname outpath);;
          header ← match best with
                   | (_, (_, r)) :: _ => mret (dict_keys r)
                   | [] =>
                       fh' ← open_read inpath;
                       mret (default [] (DictReader_fieldnames fh'))
                   end;
          let items := if keep_order then sort_by_ts best else best in
          open_write outpath;;
          DictWriter_writeheader outpath header;;
          for_each (fun _ it => DictWriter_writerow outpath header (snd (snd it)))
                   items tt;;
          let kept := length best in
          mret (kept, total)
    end.

(** [main] after [parse_args]. *)
Definition run (args : Namespace) : M Z :=
  try_except
    ('(kept, total) ← dedup_ratings (input args) (output args)
                        (user_col args) (item_col args)
                        (rating_col args) (timestamp_col args)
                        (keep_order args);
     print ("Processed " +:+ pretty total +:+ " rows; kept " +:+ pretty kept
            +:+ " unique (userId,movieId) pairs");;
     mret 0)
    (fun e => print_stderr ("Error: " +:+ exn_str e);; mret 2).

Definition main (argv : list string) : M Z :=
  args ← parse_args argv;
  run args.

End with_builtins.
End DedupRatings.

(** ** scripts/filter_low_activity_users.py *)

Module FilterLowActivityUsers.
Import Py Csv.

(** [counts[uid] += 1] on a [collections.Counter]: a missing key counts 0. *)
Definition counter_incr (counts : gmap string nat) (uid : string)
    : gmap string nat :=
  <[uid := S (default 0%nat (counts !! uid))]> counts.

Definition count_users (inpath user_col : string) : M (gmap string nat) :=
  fh ← open_read inpath;
  match DictReader_fieldnames fh with
  | None => raise (ValueError "Input CSV has no header")
  | Some fieldnames =>
      if bool_decide (user_col ∉ fieldnames)
      then raise (UserColumnNotFound user_col fieldnames)
      else
        for_each (fun counts r =>
                    let uid := row_get r user_col in
                    mret (counter_incr counts uid))
                 (DictReader_rows fh) ∅
  end.

(** One turn of either streaming loop, with [kept] and [total] carried. *)
Definition write_if_kept (outpath user_col : string)
    (fieldnames : list string) (keep_users : gset string)
    (st : nat * nat) (r : row) : M (nat * nat) :=
  let '(kept, total) := st in
  let total := S total in
  if bool_decide (row_get r user_col ∈ keep_users) then
    DictWriter_writerow outpath fieldnames r;;
    mret (S kept, total)
  else mret (kept, total).

(** [infh] is read lazily: the reader meets the file as it is once
    [outpath] has been opened for writing, so a shared path is read empty. *)
Definition filter_users (inpath outpath user_col : string) (threshold : Z)
    (keep_order : bool) : M nat :=
  counts ← count_users inpath user_col;
  let keep_users : gset string :=
    dom (filter (fun uc => threshold <= Z.of_nat (snd uc)) counts) in
  makedirs (dirname outpath);;
  open_read inpath;;
  open_write outpath;;
  infh ← open_read inpath;
  let fieldnames := default [] (DictReader_fieldnames infh) in
  DictWriter_writeheader outpath fieldnames;;
  '(kept, total) ←
    (if keep_order then
       for_each (write_if_kept outpath user_col fieldnames keep_users)
                (DictReader_rows infh) (0%nat, 0%nat)
     else
       for_each (write_if_kept outpath user_col fieldnames keep_users)
                (DictReader_rows infh) (0%nat, 0%nat));
  print ("Total rows: " +:+ pretty total +:+ "; rows kept: " +:+ pretty kept
         +:+ "; users kept: " +:+ pretty (size keep_users));;
  mret kept.

Record Namespace : Type := {
  input : string;
  output : string;
  user_col : string;
  threshold : Z;
  keep_order : bool
}.

(** [main] after [parse_args]. *)
Definition run `{Builtins} (args : Namespace) : M Z :=
  if threshold args <? 1 then
    print_stderr "--threshold must be >= 1";;
    mret 2
  else
    try_except
      (kept ← filter_users (input args) (output args) (user_col args)
                (threshold args) (keep_order args);
       mret 0)
      (fun e => print_stderr ("Error: " +:+ exn_str e);; mret 2).

End FilterLowActivityUsers.

(** ** Vocabulary of the statements *)

Module Spec.
Import Py Csv DedupRatings.

(** The world with some more text on the error stream. *)
Definition add_stderr (log : list string) (w : world) : world :=
  {| files := files w; dirs := dirs w;
     stderr := stderr w ++ log; stdout := stdout w |}.

Definition blank : world := World ∅ ∅ [] [].

(** [m] run in [w] returns [a]. *)
Definition returns {A} (m : M A) (w : world) (a : A) : Prop :=
  exists w', m w = (Return a, w').

(** The real value of a finite binary64 [(-1)^s * m * 2^e], cut toward
    zero, in exact integer arithmetic. *)
Definition truncate (s : bool) (m : positive) (e : Z) : Z :=
  Z.quot ((if s then - Zpos m else Zpos m) * 2 ^ Z.max e 0) (2 ^ Z.max (- e) 0).

(** [int(x)] of a float, where it is defined. *)
Definition truncation (x : spec_float) : option Z :=
  match x with
  | S754_zero _ => Some 0
  | S754_finite s m e => Some (truncate s m e)
  | S754_infinity _ | S754_nan => None
  end.

Definition warning_text (value : string) : string :=
  "Warning: could not convert timestamp value '" +:+ value
  +:+ "' to int; using 0" +:+ newline.

(** The stored recency and the stored row of a table entry. *)
Definition ts_of (it : key * entry) : Z := fst (snd it).
Definition row_of (it : key * entry) : row := snd (snd it).

Definition by_ts (a b : key * entry) : Prop := ts_of a <= ts_of b.

(** The entries of recency [t], in the order of the list. *)
Definition with_ts (t : Z) (items : list (key * entry)) : list (key * entry) :=
  filter (fun it => ts_of it = t) items.

(** The record [DictWriter] writes for a row. *)
Definition record_of (header : list string) (r : row) : list string :=
  map (row_get r) header.

(** The header [dedup_ratings] chooses, and the file it writes. *)
Definition output_header (fieldnames : list string) (best : table)
    : list string :=
  match best with
  | (_, (_, r)) :: _ => dict_keys r
  | [] => fieldnames
  end.

Definition output_file (header : list string) (items : list (key * entry))
    : csv_file :=
  header :: map (fun it => record_of header (row_of it)) items.

(** The state after a successful run that wrote [content] to [outpath] and
    [log] to the error stream. *)
Definition after_write (outpath : string) (content : csv_file)
    (log : list string) (w : world) : world :=
  {| files := <[outpath := content]> (files w);
     dirs := {[ dirname outpath ]} ∪ dirs w;
     stderr := stderr w ++ log;
     stdout := stdout w |}.

(** How many of the rows belong to the user. *)
Definition occurrences (user_col : string) (rows : list row) (uid : string)
    : nat :=
  length (filter (fun r => row_get r user_col = uid) rows).

(** The rows of users with at least [threshold] rows, in input order. *)
Definition active_rows (user_col : string) (threshold : Z) (rows : list row)
    : list row :=
  filter (fun r => threshold
                   <= Z.of_nat (occurrences user_col rows (row_get r user_col)))
         rows.

(** Every record that is not blank has as many cells as the header. *)
Definition rectangular (f : csv_file) : Prop :=
  match f with
  | [] => True
  | header :: records =>
      forall record, record ∈ records -> record <> [] ->
                     length record = length header
  end.

Section with_builtins.
Context `{Builtins}.

(** The recency value of a cell and the warnings its parse writes, read
    off a run of [to_int_safe]. *)
Definition recency (value : string) : Z :=
  match fst (to_int_safe value blank) with
  | Return n => n
  | Raise _ => 0
  end.

Definition warnings (value : string) : list string :=
  stderr (snd (to_int_safe value blank)).

(** The composite key and the recency of a row, as [scan_row] takes them. *)
Definition key_of (user_col item_col : string) (r : row) : key :=
  (row_get r user_col, row_get r item_col).

Definition recency_of (ts_col : string) (r : row) : Z :=
  recency (row_get r ts_col).

(** The scan of [dedup_ratings], from an empty table. *)
Definition scan (user_col item_col ts_col : string) (rows : list row)
    : M (table * nat) :=
  for_each (scan_row user_col item_col ts_col) rows ([], 0%nat).

(** What one turn of the scan does to the table, and the table after all
    turns. *)
Definition step (user_col item_col ts_col : string) (best : table) (r : row)
    : table :=
  retention_insert best (key_of user_col item_col r) (recency_of ts_col r) r.

Definition final_table (user_col item_col ts_col : string) (rows : list row)
    : table :=
  foldl (step user_col item_col ts_col) [] rows.

(** What the table holds for a key after a scan: nothing when no row has
    the key, else the last of the rows of greatest recency with that key. *)
Definition newest (user_col item_col ts_col : string) (rows : list row)
    (k : key) (e : option entry) : Prop :=
  match e with
  | None => forall r, r ∈ rows -> key_of user_col item_col r <> k
  | Some (t, r) =>
      exists l1 l2,
        rows = l1 ++ r :: l2 /\ key_of user_col item_col r = k /\ t = recency_of ts_col r /\
        (forall r', r' ∈ l1 -> key_of user_col item_col r' = k -> recency_of ts_col r' <= t) /\
        (forall r', r' ∈ l2 -> key_of user_col item_col r' = k -> recency_of ts_col r' < t)
  end.

(** A row whose recency is the greatest among the rows of its key. *)
Definition greatest (user_col item_col ts_col : string) (rows : list row)
    (r : row) : Prop :=
  r ∈ rows /\
  forall r', r' ∈ rows ->
    key_of user_col item_col r' = key_of user_col item_col r ->
    recency_of ts_col r' <= recency_of ts_col r.

(** For every key, the rows of greatest recency are one and the same
    record.  Ties below the greatest recency of a key are allowed. *)
Definition top_tie_free (user_col item_col ts_col : string) (rows : list row)
    : Prop :=
  forall r1 r2,
    greatest user_col item_col ts_col rows r1 ->
    greatest user_col item_col ts_col rows r2 ->
    key_of user_col item_col r1 = key_of user_col item_col r2 -> r1 = r2.

(** An entry agrees with the row it stores. *)
Definition coherent (user_col item_col ts_col : string) (it : key * entry)
    : Prop :=
  fst it = key_of user_col item_col (snd (snd it)) /\
  fst (snd it) = recency_of ts_col (snd (snd it)).

(** The warnings of a whole scan, in input order. *)
Definition scan_warnings (ts_col : string) (rows : list row) : list string :=
  concat (map (fun r => warnings (row_get r ts_col)) rows).

(** What the two parses make of a cell: [None] when neither the integer
    parse nor the float parse cut to an integer succeeds. *)
Definition parsed (value : string) : option Z :=
  match int_of_str value with
  | Some n => Some n
  | None =>
      match float_of_str value with
      | Some x => truncation x
      | None => None
      end
  end.

(** The table entry a row makes on its own. *)
Definition entry_of (user_col item_col ts_col : string) (r : row)
    : key * entry :=
  (key_of user_col item_col r, (recency_of ts_col r, r)).

End with_builtins.

(** The elements of a list, each once, at its first occurrence. *)
Definition first_seen {K} `{EqDecision K} (l : list K) : list K :=
  foldl add_key [] l.

(** No file other than [path] differs between the two states. *)
Definition same_files_except (path : string) (w w' : world) : Prop :=
  forall p, p <> path -> files w' !! p = files w !! p.

(** A computation that touches no file but [path] and raises nothing but
    an [Exception]. *)
Definition tame (path : string) {A} (m : M A) : Prop :=
  forall w r w', m w = (r, w') ->
    same_files_except path w w' /\
    forall e, r = Raise e -> is_Exception e = true.

(** A path without a slash: a bare file name. *)
Definition bare_name (p : string) : Prop :=
  Forall (fun c => is_slash c = false) (list_ascii_of_string p).

(** The state with one more text on the output stream. *)
Definition add_stdout (text : string) (w : world) : world :=
  {| files := files w; dirs := dirs w;
     stderr := stderr w; stdout := stdout w ++ [text] |}.

End Spec.

(** ** Sample files *)

Module Samples.
Import Py Csv.

Definition sample_header : list string :=
  ["userId"; "movieId"; "rating"; "timestamp"].

(** The scenario of the specification: two ratings of one pair, one of
    another. *)
Definition sample_records : list (list string) :=
  [["1"; "10"; "4"; "100"]; ["1"; "10"; "5"; "200"]; ["2"; "20"; "3"; "50"]].

Definition sample_world : world :=
  World {[ "in/ratings.csv" := sample_header :: sample_records ]} ∅ [] [].

Definition row_a : row :=
  [("userId", "1"); ("movieId", "10"); ("rating", "4"); ("timestamp", "100")].
Definition row_b : row :=
  [("userId", "1"); ("movieId", "10"); ("rating", "5"); ("timestamp", "200")].
Definition row_c : row :=
  [("userId", "2"); ("movieId", "20"); ("rating", "3"); ("timestamp", "50")].

(** Two different records of one key and one recency. *)
Definition tie_a : row :=
  [("userId", "1"); ("movieId", "10"); ("rating", "4"); ("timestamp", "100")].
Definition tie_b : row :=
  [("userId", "1"); ("movieId", "10"); ("rating", "5"); ("timestamp", "100")].

(** A file in which the newest rating is not the highest one. *)
Definition swapped_records : list (list string) :=
  [["1"; "10"; "5"; "100"]; ["1"; "10"; "4"; "200"]].

Definition swapped_world : world :=
  World {[ "in/ratings.csv" := sample_header :: swapped_records ]} ∅ [] [].

(** A file with a header, a blank record and no row. *)
Definition header_only_world : world :=
  World {[ "in/ratings.csv" := [sample_header; []] ]} ∅ [] [].

(** A file with one rating for each pair, one timestamp unreadable, and a
    blank record in between. *)
Definition distinct_records : list (list string) :=
  [["1"; "10"; "4"; "100"]; []; ["2"; "20"; "3"; "N/A"]].

Definition distinct_world : world :=
  World {[ "in/ratings.csv" := sample_header :: distinct_records ]} ∅ [] [].

End Samples.

(** * Properties *)

Module RecencyFacts.
Import Py Csv DedupRatings Spec.

Lemma add_stderr_nil w : add_stderr [] w = w.
Proof. destruct w; unfold add_stderr; simpl. by rewrite app_nil_r. Qed.

Lemma add_stderr_app l1 l2 w :
  add_stderr l2 (add_stderr l1 w) = add_stderr (l1 ++ l2) w.
Proof. unfold add_stderr; simpl. by rewrite app_assoc. Qed.

Lemma int_of_float_finite s m e w :
  int_of_float (S754_finite s m e) w = (Return (truncate s m e), w).
Proof.
  unfold int_of_float, truncate, mret, M_ret. do 2 f_equal.
  destruct (Z.leb_spec 0 e) as [He|He].
  - rewrite Z.max_l, Z.max_r by lia. rewrite Z.pow_0_r, Z.quot_1_r.
    rewrite Z.shiftl_mul_pow2 by lia. destruct s; lia.
  - rewrite Z.max_r, Z.max_l by lia. rewrite Z.pow_0_r, Z.mul_1_r.
    rewrite Z.shiftr_div_pow2 by lia.
    assert (0 < 2 ^ (- e)) by (apply Z.pow_pos_nonneg; lia).
    destruct s.
    + rewrite Z.quot_opp_l by lia. f_equal.
      symmetry. apply Z.quot_div_nonneg; lia.
    + symmetry. apply Z.quot_div_nonneg; lia.
Qed.

Section with_builtins.
Context `{Builtins}.

(** The three tiers of [to_int_safe], as one case analysis. *)
Lemma to_int_safe_cases (value : string) (w : world) :
  match int_of_str value with
  | Some n => to_int_safe value w = (Return n, w)
  | None =>
      match float_of_str value with
      | Some (S754_finite s m e) =>
          to_int_safe value w = (Return (truncate s m e), w)
      | Some (S754_zero _) => to_int_safe value w = (Return 0, w)
      | Some (S754_infinity _) | Some S754_nan | None =>
          to_int_safe value w
          = (Return 0, add_stderr [warning_text value] w)
      end
  end.
Proof.
  unfold to_int_safe, try_except, py_int, py_float.
  destruct (int_of_str value) as [n|]; [reflexivity|].
  cbn. destruct (float_of_str value) as [[s|s| |s m e]|]; cbn; try reflexivity.
  unfold mbind, M_bind, mret, M_ret. by rewrite int_of_float_finite.
Qed.

Lemma to_int_safe_run (value : string) (w : world) :
  to_int_safe value w
  = (Return (recency value), add_stderr (warnings value) w).
Proof.
  unfold recency, warnings.
  pose proof (to_int_safe_cases value w) as Hw.
  pose proof (to_int_safe_cases value blank) as Hb.
  destruct (int_of_str value) as [n|].
  { rewrite Hw, Hb. cbn. by rewrite add_stderr_nil. }
  destruct (float_of_str value) as [[s|s| |s m e]|];
    rewrite Hw, Hb; cbn; by rewrite ?add_stderr_nil.
Qed.

(** C4 (amended). [to_int_safe] tries the integer parse first; when that
    fails, the float parse cut toward zero; when both fail it writes a
    warning to the error stream and yields 0.  The fallback 0 is at most
    the recency of every cell whose recency is not negative; it is not a
    lower bound of all recencies. *)
Theorem to_int_safe_tiers (value : string) (w : world) :
  (forall n, int_of_str value = Some n ->
             to_int_safe value w = (Return n, w)) /\
  (forall x n, int_of_str value = None -> float_of_str value = Some x ->
               truncation x = Some n ->
               to_int_safe value w = (Return n, w)) /\
  (int_of_str value = None ->
   (float_of_str value = None \/
    exists x, float_of_str value = Some x /\ truncation x = None) ->
   to_int_safe value w = (Return 0, add_stderr [warning_text value] w) /\
   recency value = 0 /\
   forall other, 0 <= recency other -> recency value <= recency other).
Proof.
  pose proof (to_int_safe_cases value w) as Hw.
  pose proof (to_int_safe_run value w) as Hr.
  split_and!.
  - intros n Hn. by rewrite Hn in Hw.
  - intros x n Hi Hx Hn. rewrite Hi, Hx in Hw.
    destruct x; cbn in Hn; by simplify_eq.
  - intros Hi Hf. rewrite Hi in Hw.
    assert (to_int_safe value w
            = (Return 0, add_stderr [warning_text value] w)) as Hrun.
    { destruct Hf as [Hf|(x & Hf & Hx)]; rewrite Hf in Hw; [done|].
      destruct x; cbn in Hx; by simplify_eq. }
    assert (recency value = 0) as Hzero by congruence.
    split_and!; [done|done|]. intros other Hother. lia.
Qed.

(** C9. [to_int_safe] is total: on every string and in every state it
    returns an integer and raises nothing; it touches the error stream
    only. *)
Theorem to_int_safe_total (value : string) (w : world) :
  exists (n : Z) (log : list string),
    to_int_safe value w = (Return n, add_stderr log w).
Proof.
  exists (recency value), (warnings value). apply to_int_safe_run.
Qed.

End with_builtins.
End RecencyFacts.

Module MonadFacts.
Import Py.

Lemma run_bind {A B} (m : M A) (f : A -> M B) (w : world) :
  (m ≫= f) w
  = match m w with
    | (Return a, w') => f a w'
    | (Raise e, w') => (Raise e, w')
    end.
Proof. reflexivity. Qed.

Lemma run_ret {A} (a : A) (w : world) : (mret a : M A) w = (Return a, w).
Proof. reflexivity. Qed.

Lemma bind_returns {A B} (m : M A) (f : A -> M B) (w w' : world) (b : B) :
  (m ≫= f) w = (Return b, w') ->
  exists (a : A) (w1 : world), m w = (Return a, w1) /\ f a w1 = (Return b, w').
Proof.
  rewrite run_bind. destruct (m w) as [[e|a] w1]; [done|]. eauto.
Qed.

End MonadFacts.

Module DictFacts.
Import Csv.

Section dict.
Context {K V : Type} `{EqDecision K}.
Implicit Types (d : list (K * V)) (k : K) (v : V).

Lemma dict_get_set_eq d k v : dict_get (dict_set d k v) k = Some v.
Proof.
  induction d as [|[k' v'] d IH]; simpl.
  - by rewrite decide_True.
  - destruct (decide (k = k')) as [->|Hne]; simpl.
    + by rewrite decide_True.
    + by rewrite decide_False.
Qed.

Lemma dict_get_set_ne d k k' v :
  k <> k' -> dict_get (dict_set d k v) k' = dict_get d k'.
Proof.
  intros Hne. induction d as [|[k0 v0] d IH]; simpl.
  - by rewrite decide_False.
  - destruct (decide (k = k0)) as [->|Hk]; simpl.
    + by rewrite !decide_False.
    + destruct (decide (k' = k0)); [done|apply IH].
Qed.

Lemma dict_get_None d k : dict_get d k = None <-> k ∉ dict_keys d.
Proof.
  induction d as [|[k' v'] d IH]; simpl.
  - split; [intros _; apply not_elem_of_nil|done].
  - rewrite not_elem_of_cons. destruct (decide (k = k')) as [->|Hne].
    + split; [done|]. by intros [? _].
    + rewrite IH. split; [by intros ?|by intros [_ ?]].
Qed.

Lemma dict_get_Some_elem d k v : dict_get d k = Some v -> (k, v) ∈ d.
Proof.
  induction d as [|[k' v'] d IH]; simpl; [done|].
  destruct (decide (k = k')) as [->|].
  - intros [= ->]. apply list_elem_of_here.
  - intros. apply list_elem_of_further. auto.
Qed.

Lemma dict_keys_set_new d k v :
  dict_get d k = None -> dict_set d k v = d ++ [(k, v)].
Proof.
  induction d as [|[k' v'] d IH]; simpl; [done|].
  destruct (decide (k = k')); [done|]. intros Hd. by rewrite IH.
Qed.

Lemma dict_keys_set_old d k v :
  k ∈ dict_keys d -> dict_keys (dict_set d k v) = dict_keys d.
Proof.
  induction d as [|[k' v'] d IH]; simpl.
  - by intros ?%elem_of_nil.
  - destruct (decide (k = k')) as [->|Hne]; simpl; [done|].
    intros [?|Hin]%elem_of_cons; [done|]. f_equal. by apply IH.
Qed.

Lemma dict_set_length_old d k v :
  k ∈ dict_keys d -> length (dict_set d k v) = length d.
Proof.
  intros Hin. rewrite <-(length_map fst (dict_set d k v)), <-(length_map fst d).
  f_equal. by apply dict_keys_set_old.
Qed.

Lemma dict_set_elem d k v (kv : K * V) :
  kv ∈ dict_set d k v -> kv ∈ d \/ kv = (k, v).
Proof.
  induction d as [|[k' v'] d IH]; cbn.
  - intros ->%list_elem_of_singleton. by right.
  - destruct (decide (k = k')) as [->|Hne].
    + intros [->|Hin]%elem_of_cons; [by right|].
      left. by apply list_elem_of_further.
    + intros [->|Hin]%elem_of_cons; [left; apply list_elem_of_here|].
      destruct (IH Hin) as [?|?]; [left|by right].
      by apply list_elem_of_further.
Qed.

Lemma dict_keys_set d k v :
  dict_keys (dict_set d k v) = add_key (dict_keys d) k.
Proof.
  unfold add_key. destruct (decide (k ∈ dict_keys d)) as [Hin|Hout].
  - by apply dict_keys_set_old.
  - rewrite dict_keys_set_new by by apply dict_get_None.
    unfold dict_keys. by rewrite map_app.
Qed.

Lemma add_key_elem ks k k' : k' ∈ add_key ks k <-> k' ∈ ks \/ k' = k.
Proof.
  unfold add_key. destruct (decide (k ∈ ks)).
  - split; [by left|]. intros [?| ->]; done.
  - rewrite elem_of_app, list_elem_of_singleton. done.
Qed.

Lemma add_key_NoDup ks k : NoDup ks -> NoDup (add_key ks k).
Proof.
  intros Hnd. unfold add_key. destruct (decide (k ∈ ks)); [done|].
  apply NoDup_app. split_and!; [done| |apply NoDup_singleton].
  intros x Hx ->%list_elem_of_singleton. done.
Qed.

Lemma foldl_add_key_elem (l ks : list K) k :
  k ∈ foldl add_key ks l <-> k ∈ ks \/ k ∈ l.
Proof.
  revert ks. induction l as [|x l IH]; intros ks; cbn.
  - rewrite elem_of_nil. tauto.
  - rewrite IH, add_key_elem, elem_of_cons. tauto.
Qed.

Lemma foldl_add_key_NoDup (l ks : list K) :
  NoDup ks -> NoDup (foldl add_key ks l).
Proof.
  revert ks. induction l as [|x l IH]; intros ks Hnd; cbn; [done|].
  by apply IH, add_key_NoDup.
Qed.

Lemma foldl_add_key_length_le (l ks : list K) :
  (length (foldl add_key ks l) <= length ks + length l)%nat.
Proof.
  revert ks. induction l as [|x l IH]; intros ks; cbn; [lia|].
  etrans; [apply IH|]. unfold add_key.
  destruct (decide (x ∈ ks)); [lia|]. rewrite length_app. cbn. lia.
Qed.

Lemma foldl_add_key_length_eq (l ks : list K) :
  NoDup ks ->
  length (foldl add_key ks l) = (length ks + length l)%nat
  <-> NoDup (ks ++ l).
Proof.
  revert ks. induction l as [|x l IH]; intros ks Hnd; cbn.
  - rewrite app_nil_r. split; [done|lia].
  - unfold add_key at 2. destruct (decide (x ∈ ks)) as [Hin|Hout].
    + pose proof (foldl_add_key_length_le l ks). split; [lia|].
      intros (_ & Hdisj & _)%NoDup_app. destruct (Hdisj x Hin).
      apply list_elem_of_here.
    + replace (ks ++ x :: l) with ((ks ++ [x]) ++ l)
        by (by rewrite <-app_assoc).
      assert (NoDup (ks ++ [x])) as Hnd'.
      { apply NoDup_app. split_and!; [done| |apply NoDup_singleton].
        intros y Hy ->%list_elem_of_singleton. done. }
      rewrite <-(IH _ Hnd'), length_app. cbn. lia.
Qed.

Lemma dict_keys_foldl_set (pairs d : list (K * V)) :
  dict_keys (foldl (fun d kv => dict_set d (fst kv) (snd kv)) d pairs)
  = foldl add_key (dict_keys d) (map fst pairs).
Proof.
  revert d. induction pairs as [|[k v] pairs IH]; intros d; [done|].
  cbn [foldl map fst snd]. by rewrite IH, dict_keys_set.
Qed.

Lemma dict_keys_dict (pairs : list (K * V)) :
  dict_keys (dict pairs) = foldl add_key [] (map fst pairs).
Proof. apply dict_keys_foldl_set. Qed.

(** [dict] leaves an association list without repeated keys as it is. *)
Lemma foldl_set_fresh (pairs d : list (K * V)) :
  NoDup (dict_keys d ++ map fst pairs) ->
  foldl (fun d kv => dict_set d (fst kv) (snd kv)) d pairs = d ++ pairs.
Proof.
  revert d. induction pairs as [|[k v] pairs IH]; intros d Hnd;
    cbn [foldl map fst snd] in *.
  - by rewrite app_nil_r.
  - rewrite dict_keys_set_new.
    + rewrite IH.
      * by rewrite <-app_assoc.
      * unfold dict_keys in *. rewrite map_app, <-app_assoc. done.
    + apply dict_get_None. apply NoDup_app in Hnd as (_ & Hdisj & _).
      intros Hin. destruct (Hdisj k Hin). apply list_elem_of_here.
Qed.

Lemma dict_NoDup (pairs : list (K * V)) :
  NoDup (map fst pairs) -> dict pairs = pairs.
Proof. intros Hnd. unfold dict. by rewrite foldl_set_fresh. Qed.

(** Every value a [dict] holds comes from one of the pairs. *)
Lemma dict_get_foldl_set (pairs d : list (K * V)) k v :
  dict_get (foldl (fun d kv => dict_set d (fst kv) (snd kv)) d pairs) k
    = Some v ->
  (k, v) ∈ pairs \/ dict_get d k = Some v.
Proof.
  revert d. induction pairs as [|[k0 v0] pairs IH]; intros d;
    cbn [foldl fst snd].
  - by right.
  - intros [Hin|Hget]%IH.
    + left. by apply list_elem_of_further.
    + destruct (decide (k0 = k)) as [->|Hne].
      * rewrite dict_get_set_eq in Hget. simplify_eq. left.
        apply list_elem_of_here.
      * rewrite dict_get_set_ne in Hget by done. by right.
Qed.

End dict.
End DictFacts.

Module CsvFacts.
Import Py Csv Spec MonadFacts DictFacts.

Lemma map_fst_combine {A B} (l : list A) (k : list B) :
  length k = length l -> map fst (combine l k) = l.
Proof.
  revert k. induction l as [|x l IH]; intros [|y k] Hlen; cbn in *; try done.
  f_equal. apply IH. lia.
Qed.

Lemma elem_of_map {A B} (f : A -> B) (l : list A) (y : B) :
  y ∈ map f l <-> exists x, y = f x /\ x ∈ l.
Proof.
  rewrite list_elem_of_In, in_map_iff. split.
  - intros (x & <- & Hx). exists x. by rewrite list_elem_of_In.
  - intros (x & -> & Hx). exists x. by rewrite <-list_elem_of_In.
Qed.

Lemma filter_iff_elem {A} (P1 P2 : A -> Prop)
    `{!forall x, Decision (P1 x), !forall x, Decision (P2 x)} (l : list A) :
  (forall x, x ∈ l -> P1 x <-> P2 x) -> filter P1 l = filter P2 l.
Proof.
  induction l as [|a l IH]; intros Hiff; [done|].
  assert (filter P1 l = filter P2 l) as Htl.
  { apply IH. intros x Hx. apply Hiff. by apply list_elem_of_further. }
  pose proof (Hiff a (list_elem_of_here _ _)) as Ha.
  destruct (decide (P1 a)) as [H1|H1].
  - rewrite !filter_cons_True by tauto. by rewrite Htl.
  - rewrite !filter_cons_False by tauto. done.
Qed.

Lemma map_fixed {A} (f : A -> A) (l : list A) :
  (forall x, x ∈ l -> f x = x) -> map f l = l.
Proof.
  induction l as [|a l IH]; intros Hf; cbn; [done|].
  rewrite Hf by apply list_elem_of_here. f_equal.
  apply IH. intros x Hx. apply Hf. by apply list_elem_of_further.
Qed.

(** With as many cells as columns, the keys of a row are the column names,
    each at its first occurrence. *)
Lemma row_keys (header record : list string) :
  length record = length header ->
  dict_keys (dict (combine header record)) = foldl add_key [] header.
Proof. intros Hlen. by rewrite dict_keys_dict, map_fst_combine. Qed.

Lemma rows_keys (header : list string) (records : list (list string)) (r : row) :
  rectangular (header :: records) ->
  r ∈ DictReader_rows (header :: records) ->
  dict_keys r = foldl add_key [] header.
Proof.
  intros Hrect (record & -> & Hin)%elem_of_map.
  apply list_elem_of_filter in Hin as [Hne Hin].
  apply row_keys. by apply Hrect.
Qed.

Lemma rows_keys_NoDup (header : list string) (records : list (list string))
    (r : row) :
  rectangular (header :: records) ->
  r ∈ DictReader_rows (header :: records) ->
  NoDup (dict_keys r).
Proof.
  intros Hrect Hr. rewrite (rows_keys _ _ _ Hrect Hr).
  apply foldl_add_key_NoDup, NoDup_nil_2.
Qed.

(** A test for [rectangular], for concrete files. *)
Lemma rectangular_check (header : list string) (records : list (list string)) :
  forallb (fun record => (length record =? 0)%nat
                         || (length record =? length header)%nat) records
  = true ->
  rectangular (header :: records).
Proof.
  intros Hall record Hin Hne.
  rewrite forallb_forall in Hall. apply list_elem_of_In, Hall in Hin.
  apply orb_true_iff in Hin as [Hz|Hl].
  - apply Nat.eqb_eq in Hz. by destruct record.
  - by apply Nat.eqb_eq.
Qed.

Lemma combine_same_elem {A} (l : list A) (x y : A) :
  (x, y) ∈ combine l l -> y = x.
Proof.
  induction l as [|a l IH]; cbn; [by intros ?%elem_of_nil|].
  intros [[= -> ->]|Hin]%elem_of_cons; [done|by apply IH].
Qed.

Lemma header_row_get (header : list string) (k : string) :
  k ∈ header -> row_get (dict (combine header header)) k = k.
Proof.
  intros Hk. unfold row_get.
  destruct (dict_get (dict (combine header header)) k) as [v|] eqn:Hget.
  - apply dict_get_foldl_set in Hget as [Hin|Hget]; [|done].
    cbn. by apply combine_same_elem in Hin.
  - apply dict_get_None in Hget. destruct Hget.
    rewrite row_keys by done. apply foldl_add_key_elem. by right.
Qed.

Lemma header_record (header : list string) :
  record_of header (dict (combine header header)) = header.
Proof.
  unfold record_of. apply map_fixed. intros k Hk. by apply header_row_get.
Qed.

Lemma filter_not_in_nil (header keys : list string) :
  (forall k, k ∈ keys -> k ∈ header) ->
  filter (fun k => k ∉ header) keys = [].
Proof.
  intros Hsub. induction keys as [|k keys IH]; [done|].
  rewrite filter_cons_False.
  - apply IH. intros k' Hk'. apply Hsub. by apply list_elem_of_further.
  - intros Hout. apply Hout, Hsub, list_elem_of_here.
Qed.

Lemma writerow_run (path : string) (header : list string) (r : row) (w : world) :
  (forall k, k ∈ dict_keys r -> k ∈ header) ->
  DictWriter_writerow path header r w
  = write_record path (record_of header r) w.
Proof.
  intros Hsub. unfold DictWriter_writerow.
  by rewrite filter_not_in_nil.
Qed.

Lemma writeheader_run (path : string) (header : list string) (w : world) :
  DictWriter_writeheader path header w = write_record path header w.
Proof.
  unfold DictWriter_writeheader. rewrite writerow_run.
  - by rewrite header_record.
  - intros k. rewrite row_keys by done. rewrite foldl_add_key_elem.
    intros [?%elem_of_nil|?]; done.
Qed.

Lemma write_record_run (path : string) (record : list string)
    (content : csv_file) (fs : gmap string csv_file) (w : world) :
  write_record path record (set_files (<[path := content]> fs) w)
  = (Return tt, set_files (<[path := content ++ [record]]> fs) w).
Proof.
  unfold write_record, set_files. cbn. by rewrite alter_insert_eq.
Qed.

(** A row is the [dict] of its own record under its own keys. *)
Lemma combine_keys_record (r : row) :
  NoDup (dict_keys r) -> combine (dict_keys r) (record_of (dict_keys r) r) = r.
Proof.
  unfold record_of. induction r as [|[k v] r IH]; [done|].
  cbn [dict_keys map fst combine]. intros [Hk Hnd]%NoDup_cons.
  unfold row_get at 1. cbn [dict_get]. rewrite decide_True by done. cbn.
  f_equal.
  assert (map (row_get ((k, v) :: r)) (map fst r)
          = map (row_get r) (map fst r)) as ->; [|by apply IH].
  apply map_ext_in. intros k' Hk'%list_elem_of_In.
  unfold row_get. cbn [dict_get]. rewrite decide_False; [done|].
  intros ->. done.
Qed.

Lemma row_roundtrip (r : row) :
  NoDup (dict_keys r) ->
  dict (combine (dict_keys r) (record_of (dict_keys r) r)) = r.
Proof.
  intros Hnd. rewrite combine_keys_record by done. by apply dict_NoDup.
Qed.

End CsvFacts.

Module SortFacts.
Import Csv DedupRatings Spec.

Lemma insert_by_ts_perm x l : insert_by_ts x l ≡ₚ x :: l.
Proof.
  induction l as [|y l IH]; cbn; [done|].
  destruct (fst (snd x) <=? fst (snd y)); [done|].
  rewrite IH. apply perm_swap.
Qed.

Lemma sort_by_ts_perm l : sort_by_ts l ≡ₚ l.
Proof.
  induction l as [|x l IH]; cbn; [done|].
  by rewrite insert_by_ts_perm, IH.
Qed.

Lemma insert_by_ts_sorted x l :
  StronglySorted by_ts l -> StronglySorted by_ts (insert_by_ts x l).
Proof.
  induction 1 as [|y l Hl IH Hy]; cbn.
  - repeat constructor.
  - destruct (Z.leb_spec (fst (snd x)) (fst (snd y))) as [Hle|Hgt].
    + constructor; [by constructor|]. constructor; [done|].
      eapply Forall_impl; [exact Hy|]. unfold by_ts, ts_of in *. intros; lia.
    + constructor; [done|]. rewrite insert_by_ts_perm.
      constructor; [|done]. unfold by_ts, ts_of. lia.
Qed.

Lemma sort_by_ts_sorted l : StronglySorted by_ts (sort_by_ts l).
Proof.
  induction l as [|x l IH]; cbn; [constructor|by apply insert_by_ts_sorted].
Qed.

Lemma insert_by_ts_stable t x l :
  with_ts t (insert_by_ts x l) = with_ts t (x :: l).
Proof.
  unfold with_ts. induction l as [|y l IH]; cbn [insert_by_ts]; [done|].
  destruct (Z.leb_spec (fst (snd x)) (fst (snd y))) as [Hle|Hgt]; [done|].
  rewrite (filter_cons _ y), IH, !(filter_cons _ x), (filter_cons _ y).
  unfold ts_of in *. repeat case_decide; try done; lia.
Qed.

Lemma sort_by_ts_stable t l : with_ts t (sort_by_ts l) = with_ts t l.
Proof.
  induction l as [|x l IH]; [done|].
  change (sort_by_ts (x :: l)) with (insert_by_ts x (sort_by_ts l)).
  rewrite insert_by_ts_stable. unfold with_ts in *.
  by rewrite !(filter_cons _ x), IH.
Qed.

Lemma sort_by_ts_sorted_id l : StronglySorted by_ts l -> sort_by_ts l = l.
Proof.
  induction 1 as [|x l Hl IH Hx]; [done|].
  change (sort_by_ts (x :: l)) with (insert_by_ts x (sort_by_ts l)).
  rewrite IH.
  destruct Hx as [|y l' Hxy _]; [done|]. cbn.
  unfold by_ts, ts_of in Hxy. by rewrite (proj2 (Z.leb_le _ _) Hxy).
Qed.

Lemma sort_by_ts_fixed l : sort_by_ts l = l <-> StronglySorted by_ts l.
Proof.
  split; [|apply sort_by_ts_sorted_id].
  intros <-. apply sort_by_ts_sorted.
Qed.

Lemma sort_by_ts_idem l : sort_by_ts (sort_by_ts l) = sort_by_ts l.
Proof. apply sort_by_ts_sorted_id, sort_by_ts_sorted. Qed.

(** A sorted list is determined by its entries of each recency: whatever
    stable sort the interpreter runs, its result is [sort_by_ts]. *)
Lemma sorted_by_ts_unique l1 l2 :
  StronglySorted by_ts l1 -> StronglySorted by_ts l2 ->
  (forall t, with_ts t l1 = with_ts t l2) -> l1 = l2.
Proof.
  intros H1. revert l2. induction H1 as [|a l1 Hl1 IH Ha]; intros l2 H2 Heq.
  - destruct l2 as [|b l2]; [done|].
    specialize (Heq (ts_of b)). unfold with_ts in Heq.
    rewrite filter_nil, filter_cons_True in Heq; done.
  - destruct H2 as [|b l2 Hl2 Hb].
    { specialize (Heq (ts_of a)). unfold with_ts in Heq.
      rewrite filter_nil, filter_cons_True in Heq; done. }
    assert (ts_of a = ts_of b) as Hab.
    { apply Z.le_antisymm.
      - pose proof (Heq (ts_of b)) as Hq. unfold with_ts in Hq.
        rewrite (filter_cons_True _ b) in Hq by done.
        assert (b ∈ filter (fun it => ts_of it = ts_of b) (a :: l1)) as Hin
          by (rewrite Hq; apply list_elem_of_here).
        apply list_elem_of_filter in Hin as [_ [->|Hin]%elem_of_cons]; [done|].
        rewrite Forall_forall in Ha. by apply Ha.
      - pose proof (Heq (ts_of a)) as Hq. unfold with_ts in Hq.
        rewrite (filter_cons_True _ a) in Hq by done.
        assert (a ∈ filter (fun it => ts_of it = ts_of a) (b :: l2)) as Hin
          by (rewrite <-Hq; apply list_elem_of_here).
        apply list_elem_of_filter in Hin as [_ [->|Hin]%elem_of_cons]; [done|].
        rewrite Forall_forall in Hb. by apply Hb. }
    pose proof (Heq (ts_of a)) as Hq. unfold with_ts in Hq.
    rewrite (filter_cons_True _ a), (filter_cons_True _ b) in Hq by done.
    injection Hq as -> Hq. f_equal. apply IH; [done|].
    intros t. destruct (decide (ts_of b = t)) as [<-|Hne]; [done|].
    specialize (Heq t). unfold with_ts in *.
    by rewrite !(filter_cons_False _ b) in Heq.
Qed.

End SortFacts.

Module RetentionFacts.
Import Py Csv DedupRatings Spec MonadFacts DictFacts RecencyFacts.

Lemma retention_insert_absent (best : table) k ts r :
  dict_get best k = None ->
  retention_insert best k ts r = best ++ [(k, (ts, r))].
Proof.
  intros Hk. unfold retention_insert. rewrite Hk. by apply dict_keys_set_new.
Qed.

Lemma retention_insert_same (best : table) k ts r :
  dict_get (retention_insert best k ts r) k
  = match dict_get best k with
    | None => Some (ts, r)
    | Some (r0, row0) => if ts >=? r0 then Some (ts, r) else Some (r0, row0)
    end.
Proof.
  unfold retention_insert.
  destruct (dict_get best k) as [[r0 row0]|] eqn:Hk.
  - destruct (ts >=? r0); [apply dict_get_set_eq|done].
  - apply dict_get_set_eq.
Qed.

Lemma retention_insert_other (best : table) k k' ts r :
  k <> k' -> dict_get (retention_insert best k ts r) k' = dict_get best k'.
Proof.
  intros Hne. unfold retention_insert.
  destruct (dict_get best k) as [[r0 row0]|].
  - destruct (ts >=? r0); [by apply dict_get_set_ne|done].
  - by apply dict_get_set_ne.
Qed.

Section with_builtins.
Context `{Builtins}.
Context (user_col item_col ts_col : string).

Local Abbreviation key_of := (key_of user_col item_col).
Local Abbreviation recency_of := (recency_of ts_col).
Local Abbreviation step := (step user_col item_col ts_col).
Local Abbreviation final_table := (final_table user_col item_col ts_col).
Local Abbreviation scan := (scan user_col item_col ts_col).
Local Abbreviation newest := (newest user_col item_col ts_col).
Local Abbreviation greatest := (greatest user_col item_col ts_col).
Local Abbreviation top_tie_free := (top_tie_free user_col item_col ts_col).

Lemma scan_row_run (st : table * nat) (r : row) (w : world) :
  scan_row user_col item_col ts_col st r w
  = (Return (step (fst st) r, S (snd st)),
     add_stderr (warnings (row_get r ts_col)) w).
Proof.
  destruct st as [best total]. unfold scan_row.
  rewrite run_bind, to_int_safe_run. reflexivity.
Qed.

Lemma for_each_scan_row (rows : list row) (best : table) (n : nat) (w : world) :
  for_each (scan_row user_col item_col ts_col) rows (best, n) w
  = (Return (foldl step best rows, (n + length rows)%nat),
     add_stderr (scan_warnings ts_col rows) w).
Proof.
  revert best n w. induction rows as [|r rows IH]; intros best n w.
  - cbn. by rewrite add_stderr_nil, Nat.add_0_r.
  - cbn [for_each]. rewrite run_bind, scan_row_run, IH.
    unfold scan_warnings. cbn [map concat foldl length fst snd].
    rewrite add_stderr_app, Nat.add_succ_r. reflexivity.
Qed.

Lemma scan_run (rows : list row) (w : world) :
  scan rows w
  = (Return (final_table rows, length rows),
     add_stderr (scan_warnings ts_col rows) w).
Proof. apply for_each_scan_row. Qed.

Lemma final_table_newest (rows : list row) (k : key) :
  newest rows k (dict_get (final_table rows) k).
Proof.
  unfold final_table. induction rows as [|x rows IH] using rev_ind.
  - cbn. intros r Hr. by apply elem_of_nil in Hr.
  - rewrite foldl_snoc. unfold step at 1.
    set (best := foldl step [] rows) in *.
    destruct (decide (key_of x = k)) as [Hk|Hk].
    + rewrite <-Hk in *. rewrite retention_insert_same.
      destruct (dict_get best (key_of x)) as [[t r]|]; cbn in IH |- *.
      * destruct IH as (l1 & l2 & -> & Hkr & -> & Hl1 & Hl2).
        destruct (Z.geb_spec (recency_of x) (recency_of r)) as [Hge|Hlt].
        -- exists (l1 ++ r :: l2), []. split_and!; try done.
           ++ intros r' Hr' Hkr'.
              apply elem_of_app in Hr' as [Hr'|Hr'].
              { specialize (Hl1 _ Hr' Hkr'). lia. }
              apply elem_of_cons in Hr' as [->|Hr']; [lia|].
              specialize (Hl2 _ Hr' Hkr'). lia.
           ++ intros r' Hr'. by apply elem_of_nil in Hr'.
        -- exists l1, (l2 ++ [x]). split_and!; try done.
           ++ by rewrite <-app_assoc.
           ++ intros r' Hr' Hkr'.
              apply elem_of_app in Hr' as [Hr'|Hr']; [by apply Hl2|].
              apply list_elem_of_singleton in Hr' as ->. lia.
      * exists rows, []. split_and!; try done.
        -- intros r' Hr' Hkr'. by destruct (IH _ Hr').
        -- intros r' Hr'. by apply elem_of_nil in Hr'.
    + rewrite retention_insert_other by done.
      destruct (dict_get best k) as [[t r]|]; cbn in IH |- *.
      * destruct IH as (l1 & l2 & -> & Hkr & -> & Hl1 & Hl2).
        exists l1, (l2 ++ [x]). split_and!; try done.
        -- by rewrite <-app_assoc.
        -- intros r' Hr' Hkr'.
           apply elem_of_app in Hr' as [Hr'|Hr']; [by apply Hl2|].
           apply list_elem_of_singleton in Hr' as ->. done.
      * intros r' Hr'. apply elem_of_app in Hr' as [Hr'|Hr']; [by apply IH|].
        apply list_elem_of_singleton in Hr' as ->. done.
Qed.

(** C1. Retention rule: an absent key takes the new pair; a present key
    with stored recency [r0] takes it exactly when the new recency is at
    least [r0], and is left alone otherwise.  Consequently the scan of any
    rows returns a table that holds, for every key, the last of the rows of
    greatest recency with that key. *)
Theorem retention_newest_wins (rows : list row) (w : world) :
  (forall (best : table) (k : key) (ts : Z) (r : row),
     match dict_get best k with
     | None => dict_get (retention_insert best k ts r) k = Some (ts, r)
     | Some (r0, row0) =>
         (ts >= r0 -> dict_get (retention_insert best k ts r) k = Some (ts, r)) /\
         (~ ts >= r0 -> retention_insert best k ts r = best)
     end) /\
  exists best : table,
    returns (scan rows) w (best, length rows) /\
    forall k : key, newest rows k (dict_get best k).
Proof.
  split.
  - intros best k ts r. pose proof (retention_insert_same best k ts r) as Hs.
    unfold retention_insert.
    destruct (dict_get best k) as [[r0 row0]|] eqn:Hk; [|by apply dict_get_set_eq].
    destruct (Z.geb_spec ts r0); split; intros; try lia; try done.
    apply dict_get_set_eq.
  - exists (final_table rows). split.
    + eexists. apply scan_run.
    + apply final_table_newest.
Qed.

(** The keys of the table: the composite keys of the rows, each at its
    first occurrence. *)
Lemma step_keys (best : table) (r : row) :
  dict_keys (step best r) = add_key (dict_keys best) (key_of r).
Proof.
  unfold step, retention_insert.
  destruct (dict_get best (key_of r)) as [[t0 r0]|] eqn:Hk.
  - destruct (_ >=? _); [apply dict_keys_set|].
    unfold add_key. rewrite decide_True; [done|].
    destruct (decide (key_of r ∈ dict_keys best)) as [|Hout]; [done|].
    apply dict_get_None in Hout. congruence.
  - apply dict_keys_set.
Qed.

Lemma foldl_step_keys (rows : list row) (best : table) :
  dict_keys (foldl step best rows)
  = foldl add_key (dict_keys best) (map key_of rows).
Proof.
  revert best. induction rows as [|r rows IH]; intros best; [done|].
  cbn [foldl map]. by rewrite IH, step_keys.
Qed.

Lemma final_table_keys (rows : list row) :
  dict_keys (final_table rows) = foldl add_key [] (map key_of rows).
Proof. apply foldl_step_keys. Qed.

Lemma final_table_keys_NoDup (rows : list row) :
  NoDup (dict_keys (final_table rows)).
Proof. rewrite final_table_keys. apply foldl_add_key_NoDup, NoDup_nil_2. Qed.

Lemma step_elem (best : table) (r : row) (it : key * entry) :
  it ∈ step best r -> it ∈ best \/ it = (key_of r, (recency_of r, r)).
Proof.
  unfold step, retention_insert.
  destruct (dict_get best (key_of r)) as [[t0 r0]|].
  - destruct (_ >=? _); [|by left]. apply dict_set_elem.
  - apply dict_set_elem.
Qed.

Lemma final_table_entries (rows : list row) (it : key * entry) :
  it ∈ final_table rows ->
  coherent user_col item_col ts_col it /\ row_of it ∈ rows.
Proof.
  unfold final_table. induction rows as [|x rows IH] using rev_ind.
  - by intros ?%elem_of_nil.
  - rewrite foldl_snoc. intros [Hin| ->]%step_elem.
    + destruct (IH Hin). split; [done|]. apply elem_of_app. by left.
    + split; [done|]. apply elem_of_app. right. apply list_elem_of_here.
Qed.

(** Scanning the rows of coherent entries with distinct keys rebuilds the
    entries, in their order. *)
Lemma foldl_step_fresh (items best : table) :
  Forall (coherent user_col item_col ts_col) items ->
  NoDup (dict_keys best ++ dict_keys items) ->
  foldl step best (map row_of items) = best ++ items.
Proof.
  revert best.
  induction items as [|[k [t r]] items IH]; intros best Hco Hnd.
  - cbn. by rewrite app_nil_r.
  - apply Forall_cons in Hco as [[Hk Ht] Hco]. cbn in Hk, Ht. subst k t.
    cbn [map foldl]. change (row_of (_, (_, r))) with r.
    assert (step best r = best ++ [(key_of r, (recency_of r, r))]) as ->.
    { unfold step. apply retention_insert_absent, dict_get_None.
      cbn in Hnd. apply NoDup_app in Hnd as (_ & Hdisj & _).
      intros Hin. destruct (Hdisj _ Hin). apply list_elem_of_here. }
    rewrite IH; [by rewrite <-app_assoc|done|].
    unfold dict_keys in *. rewrite map_app, <-app_assoc. done.
Qed.

Lemma final_table_fresh (items : table) :
  Forall (coherent user_col item_col ts_col) items ->
  NoDup (dict_keys items) ->
  final_table (map row_of items) = items.
Proof. intros Hco Hnd. unfold final_table. by rewrite foldl_step_fresh. Qed.

Lemma newest_greatest (rows : list row) (k : key) (t : Z) (r : row) :
  newest rows k (Some (t, r)) ->
  r ∈ rows /\ key_of r = k /\ t = recency_of r /\
  forall r', r' ∈ rows -> key_of r' = k -> recency_of r' <= t.
Proof.
  intros (l1 & l2 & -> & Hk & -> & Hl1 & Hl2). split_and!; try done.
  - apply elem_of_app. right. apply list_elem_of_here.
  - intros r' Hr' Hkr'. apply elem_of_app in Hr' as [Hr'|Hr'].
    { by apply Hl1. }
    apply elem_of_cons in Hr' as [->|Hr']; [lia|].
    specialize (Hl2 _ Hr' Hkr'). lia.
Qed.

Lemma newest_is_greatest (rows : list row) (k : key) (t : Z) (r : row) :
  newest rows k (Some (t, r)) ->
  greatest rows r /\ key_of r = k /\ t = recency_of r.
Proof.
  intros (Hr & Hk & -> & Hmax)%newest_greatest. split_and!; try done.
  split; [done|]. intros r' Hr' Hkr'. apply Hmax; congruence.
Qed.

Lemma greatest_permutation (rows rows' : list row) (r : row) :
  rows ≡ₚ rows' -> greatest rows r -> greatest rows' r.
Proof.
  intros Hperm [Hr Hmax]. split; [by rewrite <-Hperm|].
  intros r' Hr'. apply Hmax. by rewrite Hperm.
Qed.

Lemma final_table_permutation (rows rows' : list row) (k : key) :
  rows ≡ₚ rows' -> top_tie_free rows ->
  dict_get (final_table rows) k = dict_get (final_table rows') k.
Proof.
  intros Hperm Htie.
  pose proof (final_table_newest rows k) as Hn.
  pose proof (final_table_newest rows' k) as Hn'.
  destruct (dict_get (final_table rows) k) as [[t r]|],
           (dict_get (final_table rows') k) as [[t' r']|]; try done.
  - apply newest_is_greatest in Hn as (Hg & Hk & ->).
    apply newest_is_greatest in Hn' as (Hg' & Hk' & ->).
    symmetry in Hperm. apply (greatest_permutation _ _ _ Hperm) in Hg'.
    assert (r = r') as -> by (apply Htie; congruence). done.
  - apply newest_greatest in Hn as (Hr & Hk & _). cbn in Hn'.
    rewrite Hperm in Hr. by destruct (Hn' _ Hr).
  - apply newest_greatest in Hn' as (Hr' & Hk' & _). cbn in Hn.
    rewrite <-Hperm in Hr'. by destruct (Hn _ Hr').
Qed.

(** A row of greatest recency for its key that stands last is the one
    retained for that key. *)
Lemma final_table_last (rows : list row) (r : row) :
  greatest (rows ++ [r]) r ->
  dict_get (final_table (rows ++ [r])) (key_of r) = Some (recency_of r, r).
Proof.
  intros [_ Hmax]. unfold final_table. rewrite foldl_snoc. unfold step at 1.
  rewrite retention_insert_same.
  pose proof (final_table_newest rows (key_of r)) as Hn.
  unfold final_table in Hn.
  destruct (dict_get (foldl step [] rows) (key_of r)) as [[t0 r0]|]; [|done].
  apply newest_greatest in Hn as (Hr0 & Hk0 & -> & _).
  assert (recency_of r0 <= recency_of r) as Hle.
  { apply Hmax; [|done]. apply elem_of_app. by left. }
  destruct (Z.geb_spec (recency_of r) (recency_of r0)); [done|lia].
Qed.

(** Any row of the input can be moved to the end by a permutation. *)
Lemma move_last (rows : list row) (r : row) :
  r ∈ rows -> exists rest, rows ≡ₚ rest ++ [r].
Proof.
  intros (l1 & l2 & ->)%list_elem_of_split. exists (l1 ++ l2).
  rewrite <-app_assoc. apply Permutation_app_head.
  rewrite (Permutation_app_comm l2 [r]). done.
Qed.

(** C3 (amended). Permuting the input rows never changes the record the
    table retains for any key exactly when, for every key, the rows of
    greatest recency with that key are one and the same record.  Ties
    below the greatest recency of a key do no harm; with two different
    records at the greatest recency of a key some permutation changes the
    retained record. *)
Theorem retained_permutation_invariant (rows : list row) :
  top_tie_free rows <->
  (forall (rows' : list row) (w w' : world),
     rows ≡ₚ rows' ->
     exists best best' : table,
       returns (scan rows) w (best, length rows) /\
       returns (scan rows') w' (best', length rows') /\
       forall k : key, snd <$> dict_get best k = snd <$> dict_get best' k).
Proof.
  split.
  - intros Htie rows' w w' Hperm.
    exists (final_table rows), (final_table rows'). split_and!.
    + eexists. apply scan_run.
    + eexists. apply scan_run.
    + intros k. f_equal. by apply final_table_permutation.
  - intros Hinv r1 r2 Hg1 Hg2 Hk.
    assert (forall r, greatest rows r ->
              snd <$> dict_get (final_table rows) (key_of r) = Some r)
      as Hlast.
    { intros r Hg. destruct (move_last rows r (proj1 Hg)) as (rest & Hperm).
      destruct (Hinv (rest ++ [r]) blank blank Hperm)
        as (best & best' & [w1 Hrun] & [w2 Hrun'] & Hsame).
      rewrite scan_run in Hrun, Hrun'.
      injection Hrun as <- _. injection Hrun' as <- _.
      rewrite Hsame, final_table_last; [done|].
      by apply (greatest_permutation rows). }
    pose proof (Hlast r1 Hg1) as H1. pose proof (Hlast r2 Hg2) as H2.
    rewrite Hk in H1. rewrite H1 in H2. by injection H2.
Qed.

End with_builtins.
End RetentionFacts.

Module DedupFacts.
Import Py Csv DedupRatings Spec.
Import MonadFacts DictFacts CsvFacts SortFacts RecencyFacts RetentionFacts.

Lemma write_rows_run (path : string) (header : list string)
    (items : list (key * entry)) (content : csv_file)
    (fs : gmap string csv_file) (w : world) :
  (forall it, it ∈ items ->
     forall k, k ∈ dict_keys (row_of it) -> k ∈ header) ->
  for_each (fun _ it => DictWriter_writerow path header (snd (snd it)))
           items tt (set_files (<[path := content]> fs) w)
  = (Return tt,
     set_files (<[path := content
                          ++ map (fun it => record_of header (row_of it)) items]> fs)
               w).
Proof.
  revert content. induction items as [|it items IH]; intros content Hsub.
  - cbn. by rewrite app_nil_r.
  - cbn [for_each map]. rewrite run_bind, writerow_run, write_record_run.
    + rewrite IH.
      * by rewrite <-app_assoc.
      * intros it' Hit'. apply Hsub. by apply list_elem_of_further.
    + apply Hsub, list_elem_of_here.
Qed.

Section with_builtins.
Context `{Builtins}.

(** A run of [dedup_ratings] on a file with the four columns, whose rows
    fit the chosen header, to a path inside some directory. *)
Lemma dedup_ratings_run
    (inpath outpath user_col item_col ts_col rating_col : string)
    (keep_order : bool) (w : world)
    (fieldnames : list string) (records : list (list string)) :
  let rows := DictReader_rows (fieldnames :: records) in
  let best := final_table user_col item_col ts_col rows in
  let header := output_header fieldnames best in
  let items := if keep_order then sort_by_ts best else best in
  files w !! inpath = Some (fieldnames :: records) ->
  user_col ∈ fieldnames -> item_col ∈ fieldnames ->
  ts_col ∈ fieldnames -> rating_col ∈ fieldnames ->
  dirname outpath <> EmptyString ->
  (forall it, it ∈ best ->
     forall k, k ∈ dict_keys (row_of it) -> k ∈ header) ->
  dedup_ratings inpath outpath user_col item_col ts_col rating_col keep_order w
  = (Return (length best, length rows),
     after_write outpath (output_file header items)
                 (scan_warnings ts_col rows) w).
Proof.
  intros rows best header items Hf Hu Hi Ht Hr Hdir Hsub.
  unfold dedup_ratings.
  rewrite run_bind. unfold path_exists.
  rewrite bool_decide_true by (rewrite Hf; eauto). cbn [negb].
  rewrite run_bind. unfold open_read at 1. rewrite Hf.
  cbn [DictReader_fieldnames head].
  rewrite !bool_decide_false by (intros Hn; by apply Hn). cbn [orb].
  rewrite run_bind, for_each_scan_row. cbn [foldl Nat.add].
  fold rows. change (foldl _ [] rows) with best.
  rewrite run_bind. unfold makedirs at 1. rewrite decide_False by done.
  set (w1 := {| files := _; dirs := _; stderr := _; stdout := _ |}).
  assert (forall items',
    (items' = items) ->
    (header' ← (match best with
                | (_, (_, r)) :: _ => mret (dict_keys r)
                | [] => fh' ← open_read inpath;
                        mret (default [] (DictReader_fieldnames fh'))
                end : M (list string));
     open_write outpath;;
     DictWriter_writeheader outpath header';;
     for_each (fun _ it => DictWriter_writerow outpath header' (snd (snd it)))
              items' tt;;
     mret (length best, length rows)) w1
    = (Return (length best, length rows),
       after_write outpath (output_file header items)
                   (scan_warnings ts_col rows) w)) as Hrest.
  { intros items' ->.
    assert ((match best with
             | (_, (_, r)) :: _ => mret (dict_keys r)
             | [] => fh' ← open_read inpath;
                     mret (default [] (DictReader_fieldnames fh'))
             end : M (list string)) w1 = (Return header, w1)) as Hheader.
    { subst header. destruct best as [|[k [t0 r0]] best'].
      - rewrite run_bind. unfold open_read. subst w1. cbn [files add_stderr].
        by rewrite Hf.
      - done. }
    rewrite run_bind, Hheader.
    rewrite run_bind. unfold open_write at 1.
    rewrite run_bind, writeheader_run, write_record_run.
    rewrite run_bind, write_rows_run.
    - unfold after_write, set_files, output_file. subst w1. reflexivity.
    - intros it Hit. apply Hsub. subst items.
      destruct keep_order; [|done]. by rewrite <-(sort_by_ts_perm best). }
  apply Hrest. by subst items.
Qed.


(** On a rectangular file every stored row fits the chosen header. *)
Lemma rectangular_rows_fit
    (user_col item_col ts_col : string)
    (fieldnames : list string) (records : list (list string)) :
  let rows := DictReader_rows (fieldnames :: records) in
  let best := final_table user_col item_col ts_col rows in
  rectangular (fieldnames :: records) ->
  forall it, it ∈ best ->
    dict_keys (row_of it) = foldl add_key [] fieldnames /\
    output_header fieldnames best = foldl add_key [] fieldnames.
Proof.
  intros rows best Hrect it Hit.
  assert (forall it', it' ∈ best ->
            dict_keys (row_of it') = foldl add_key [] fieldnames) as Hkeys.
  { intros it' Hit'. apply final_table_entries in Hit' as [_ Hrow].
    by apply (rows_keys _ records). }
  split; [by apply Hkeys|].
  destruct best as [|[k0 [t0 r0]] best']; [by apply elem_of_nil in Hit|].
  cbn. apply (Hkeys (k0, (t0, r0))), list_elem_of_here.
Qed.

Lemma dedup_ratings_rectangular
    (inpath outpath user_col item_col ts_col rating_col : string)
    (keep_order : bool) (w : world)
    (fieldnames : list string) (records : list (list string)) :
  let rows := DictReader_rows (fieldnames :: records) in
  let best := final_table user_col item_col ts_col rows in
  let header := output_header fieldnames best in
  let items := if keep_order then sort_by_ts best else best in
  files w !! inpath = Some (fieldnames :: records) ->
  rectangular (fieldnames :: records) ->
  user_col ∈ fieldnames -> item_col ∈ fieldnames ->
  ts_col ∈ fieldnames -> rating_col ∈ fieldnames ->
  dirname outpath <> EmptyString ->
  dedup_ratings inpath outpath user_col item_col ts_col rating_col keep_order w
  = (Return (length best, length rows),
     after_write outpath (output_file header items)
                 (scan_warnings ts_col rows) w).
Proof.
  intros rows best header items Hf Hrect Hu Hi Ht Hr Hdir.
  apply dedup_ratings_run; try done.
  intros it Hit k Hk.
  destruct (rectangular_rows_fit user_col item_col ts_col _ _ Hrect it Hit)
    as [Hkeys Hhead].
  cbv zeta in Hhead. unfold header, best, rows.
  rewrite Hhead, <-Hkeys. done.
Qed.

(** The size of the table against the number of rows. *)
Lemma final_table_size (user_col item_col ts_col : string) (rows : list row) :
  let best := final_table user_col item_col ts_col rows in
  (length best <= length rows)%nat /\
  (length best = length rows <-> NoDup (map (key_of user_col item_col) rows)).
Proof.
  intros best. rewrite <-(length_map fst best). fold (dict_keys best).
  subst best. rewrite final_table_keys.
  rewrite <-(length_map (key_of user_col item_col) rows). split.
  - apply (foldl_add_key_length_le _ []).
  - apply (foldl_add_key_length_eq _ []). apply NoDup_nil_2.
Qed.

(** Whatever a run of [dedup_ratings] returns are the size of the table
    and the number of rows. *)
Lemma dedup_ratings_returns
    (inpath outpath user_col item_col ts_col rating_col : string)
    (keep_order : bool) (w w' : world) (f : csv_file) (kept total : nat) :
  files w !! inpath = Some f ->
  dedup_ratings inpath outpath user_col item_col ts_col rating_col keep_order w
  = (Return (kept, total), w') ->
  kept = length (final_table user_col item_col ts_col (DictReader_rows f)) /\
  total = length (DictReader_rows f).
Proof.
  intros Hf. unfold dedup_ratings.
  rewrite run_bind. unfold path_exists.
  rewrite bool_decide_true by (rewrite Hf; eauto). cbn [negb].
  rewrite run_bind. unfold open_read at 1. rewrite Hf.
  destruct (DictReader_fieldnames f) as [fieldnames|]; [|done].
  destruct (_ || _); [done|].
  rewrite run_bind, for_each_scan_row. cbn [Nat.add].
  intros (_ & w1 & _ & Hrun)%bind_returns.
  apply bind_returns in Hrun as (header & w2 & _ & Hrun).
  apply bind_returns in Hrun as (_ & w3 & _ & Hrun).
  apply bind_returns in Hrun as (_ & w4 & _ & Hrun).
  apply bind_returns in Hrun as (_ & w5 & _ & Hrun).
  rewrite run_ret in Hrun. by injection Hrun as <- <- _.
Qed.

(** C6. On a rectangular input, the kept count is at most the total count,
    and the two are equal exactly when the composite keys of the input rows
    are pairwise distinct: so for whatever a run returns, and a run on an
    input with the four columns, written inside some directory, does
    return. *)
Theorem kept_at_most_total
    (inpath outpath user_col item_col ts_col rating_col : string)
    (keep_order : bool) (w : world) (f : csv_file) :
  files w !! inpath = Some f ->
  rectangular f ->
  (forall (kept total : nat) (w' : world),
     dedup_ratings inpath outpath user_col item_col ts_col rating_col
                   keep_order w
     = (Return (kept, total), w') ->
     total = length (DictReader_rows f) /\
     (kept <= total)%nat /\
     (kept = total <->
      NoDup (map (key_of user_col item_col) (DictReader_rows f)))) /\
  (forall (fieldnames : list string) (records : list (list string)),
     f = fieldnames :: records ->
     user_col ∈ fieldnames -> item_col ∈ fieldnames ->
     ts_col ∈ fieldnames -> rating_col ∈ fieldnames ->
     dirname outpath <> EmptyString ->
     exists (kept total : nat) (w' : world),
       dedup_ratings inpath outpath user_col item_col ts_col rating_col
                     keep_order w
       = (Return (kept, total), w')).
Proof.
  intros Hf Hrect. split.
  - intros kept total w' Hrun.
    destruct (dedup_ratings_returns _ _ _ _ _ _ _ _ _ _ _ _ Hf Hrun)
      as [-> ->].
    split; [done|]. apply final_table_size.
  - intros fieldnames records -> Hu Hi Ht Hr Hdir.
    do 2 eexists. eexists. by apply dedup_ratings_rectangular.
Qed.

(** C8. With the recency-ascending order the entries are written sorted by
    stored recency, entries of equal recency in the order of the table,
    and the count returned is the size of the table, which is also the
    number of rows written. *)
Theorem recency_order_is_stable_sort
    (inpath outpath user_col item_col ts_col rating_col : string)
    (w : world) (fieldnames : list string) (records : list (list string)) :
  files w !! inpath = Some (fieldnames :: records) ->
  rectangular (fieldnames :: records) ->
  user_col ∈ fieldnames -> item_col ∈ fieldnames ->
  ts_col ∈ fieldnames -> rating_col ∈ fieldnames ->
  dirname outpath <> EmptyString ->
  exists (best items : table) (total : nat) (w' : world),
    returns (scan user_col item_col ts_col
                  (DictReader_rows (fieldnames :: records))) w (best, total) /\
    dedup_ratings inpath outpath user_col item_col ts_col rating_col true w
    = (Return (length best, total), w') /\
    files w' !! outpath
    = Some (output_file (output_header fieldnames best) items) /\
    StronglySorted by_ts items /\
    items ≡ₚ best /\
    (forall t, with_ts t items = with_ts t best) /\
    length items = length best.
Proof.
  intros Hf Hrect Hu Hi Ht Hr Hdir.
  set (rows := DictReader_rows (fieldnames :: records)).
  set (best := final_table user_col item_col ts_col rows).
  exists best, (sort_by_ts best), (length rows). eexists. split_and!.
  - eexists. apply scan_run.
  - by apply dedup_ratings_rectangular.
  - cbn [after_write files]. by rewrite lookup_insert_eq.
  - apply sort_by_ts_sorted.
  - apply sort_by_ts_perm.
  - intros t. apply sort_by_ts_stable.
  - by rewrite sort_by_ts_perm.
Qed.

(** Reading back what was written: the rows are the stored rows. *)
Lemma output_rows (header : list string) (items : table) :
  header <> [] ->
  (forall it, it ∈ items ->
     dict_keys (row_of it) = header /\ NoDup (dict_keys (row_of it))) ->
  DictReader_rows (output_file header items) = map row_of items.
Proof.
  intros Hne Hkeys. unfold output_file, DictReader_rows.
  induction items as [|it items IH]; [done|].
  cbn [map]. rewrite filter_cons_True.
  - cbn [map]. f_equal.
    + destruct (Hkeys it (list_elem_of_here _ _)) as [<- Hnd].
      by apply row_roundtrip.
    + apply IH. intros it' Hit'. apply Hkeys. by apply list_elem_of_further.
  - unfold record_of. destruct header; [done|]. done.
Qed.

Lemma output_rectangular (header : list string) (items : table) :
  rectangular (output_file header items).
Proof.
  unfold rectangular, output_file.
  intros record (it & -> & _)%elem_of_map _.
  unfold record_of. by rewrite length_map.
Qed.

Lemma coherent_keys (user_col item_col ts_col : string) (items : table) :
  Forall (coherent user_col item_col ts_col) items ->
  map (key_of user_col item_col) (map row_of items) = dict_keys items.
Proof.
  induction 1 as [|it items [Hk _] _ IH]; [done|].
  unfold dict_keys in *. cbn [map]. rewrite IH. f_equal.
  symmetry. exact Hk.
Qed.

(** Two lists with the same elements and the same images under a map that
    tells the elements apart are the same list. *)
Lemma map_eq_permutation {A B} (f : A -> B) (l1 l2 : list A) :
  (forall x y, x ∈ l1 -> y ∈ l1 -> f x = f y -> x = y) ->
  l1 ≡ₚ l2 -> map f l1 = map f l2 -> l1 = l2.
Proof.
  revert l2. induction l1 as [|a l1 IH]; intros l2 Hinj Hperm Hmap.
  - by apply Permutation_nil in Hperm.
  - destruct l2 as [|b l2]; [done|]. cbn in Hmap. injection Hmap as Hab Hmap.
    assert (a = b) as <-.
    { apply Hinj; [apply list_elem_of_here| |done].
      rewrite Hperm. apply list_elem_of_here. }
    f_equal. apply IH; [|by apply Permutation_cons_inv in Hperm|done].
    intros x y Hx Hy. apply Hinj; by apply list_elem_of_further.
Qed.

(** The record written for an entry tells the entry: the record gives the
    row back, and the row gives the key and the recency. *)
Lemma written_record_inj (user_col item_col ts_col : string)
    (header : list string) (it it' : key * entry) :
  coherent user_col item_col ts_col it ->
  coherent user_col item_col ts_col it' ->
  dict_keys (row_of it) = header -> dict_keys (row_of it') = header ->
  NoDup header ->
  record_of header (row_of it) = record_of header (row_of it') ->
  it = it'.
Proof.
  intros [Hk Ht] [Hk' Ht'] Hh Hh' Hnd Hrec.
  assert (row_of it = row_of it') as Hrow.
  { rewrite <-(row_roundtrip (row_of it)), <-(row_roundtrip (row_of it'))
      by (by rewrite ?Hh, ?Hh').
    by rewrite Hh, Hh', Hrec. }
  destruct it as [k [t r]], it' as [k' [t' r']]. cbn in *. by subst.
Qed.

(** C7 (amended). A second run on the output of a first run keeps every
    row of that output and writes the same header and the same records.
    It writes them in the same order, so that the second output is the
    first one record for record, exactly when the second run writes in
    table order or the records of the first output already stand in
    ascending order of recency, as they do when the first run wrote in
    recency order.  The first output holds the rows the scan of the input
    retained, for every composite key the last of its rows of greatest
    recency, every composite key once. *)
Theorem dedup_idempotent
    (inpath out1 out2 user_col item_col ts_col rating_col : string)
    (keep1 keep2 : bool) (w : world)
    (fieldnames : list string) (records : list (list string)) :
  files w !! inpath = Some (fieldnames :: records) ->
  rectangular (fieldnames :: records) ->
  user_col ∈ fieldnames -> item_col ∈ fieldnames ->
  ts_col ∈ fieldnames -> rating_col ∈ fieldnames ->
  dirname out1 <> EmptyString -> dirname out2 <> EmptyString ->
  exists (best items again : table) (header : list string) (total : nat)
         (w1 w2 : world),
    returns (scan user_col item_col ts_col
                  (DictReader_rows (fieldnames :: records))) w (best, total) /\
    (forall k : key,
       newest user_col item_col ts_col
              (DictReader_rows (fieldnames :: records)) k (dict_get best k)) /\
    items = (if keep1 then sort_by_ts best else best) /\
    again = (if keep2 then sort_by_ts items else items) /\
    header = output_header fieldnames best /\
    dedup_ratings inpath out1 user_col item_col ts_col rating_col keep1 w
    = (Return (length best, total), w1) /\
    files w1 !! out1 = Some (output_file header items) /\
    DictReader_rows (output_file header items) = map row_of items /\
    NoDup (map (key_of user_col item_col) (map row_of items)) /\
    dedup_ratings out1 out2 user_col item_col ts_col rating_col keep2 w1
    = (Return (length best, length best), w2) /\
    files w2 !! out2 = Some (output_file header again) /\
    again ≡ₚ items /\
    (output_file header again = output_file header items
     <-> keep2 = false \/ StronglySorted by_ts items) /\
    (keep1 = true -> StronglySorted by_ts items).
Proof.
  intros Hf Hrect Hu Hi Ht Hr Hdir1 Hdir2.
  set (rows := DictReader_rows (fieldnames :: records)).
  set (best := final_table user_col item_col ts_col rows).
  set (header := output_header fieldnames best).
  set (items := if keep1 then sort_by_ts best else best).
  set (again := if keep2 then sort_by_ts items else items).
  set (w1 := after_write out1 (output_file header items)
                         (scan_warnings ts_col rows) w).
  assert (files w1 !! out1 = Some (output_file header items)) as Hf1.
  { subst w1. cbn [after_write files]. by rewrite lookup_insert_eq. }
  assert (items ≡ₚ best) as Hperm.
  { subst items. destruct keep1; [apply sort_by_ts_perm|done]. }
  assert (again ≡ₚ items) as Hperm2.
  { subst again. destruct keep2; [apply sort_by_ts_perm|done]. }
  assert (Forall (coherent user_col item_col ts_col) items) as Hco.
  { rewrite Hperm. apply Forall_forall. intros it Hit.
    by apply final_table_entries in Hit as [? _]. }
  assert (NoDup (dict_keys items)) as Hnd.
  { unfold dict_keys. rewrite Hperm. apply final_table_keys_NoDup. }
  assert (forall it, it ∈ items ->
            dict_keys (row_of it) = header /\ NoDup (dict_keys (row_of it)))
    as Hkeys.
  { intros it Hit. rewrite Hperm in Hit.
    destruct (rectangular_rows_fit user_col item_col ts_col _ _ Hrect it Hit)
      as [Hk Hh]. cbv zeta in Hh. fold rows best header in Hh.
    rewrite Hh, Hk. split; [done|]. apply foldl_add_key_NoDup, NoDup_nil_2. }
  assert (header <> []) as Hne.
  { subst header. destruct best as [|[k0 [t0 r0]] best'] eqn:Hbest.
    - cbn. intros ->. by apply elem_of_nil in Hu.
    - assert ((k0, (t0, r0)) ∈ best) as Hin
        by (rewrite Hbest; apply list_elem_of_here).
      destruct (rectangular_rows_fit user_col item_col ts_col _ _ Hrect _ Hin)
        as [_ Hh]. cbv zeta in Hh. fold rows best in Hh.
      rewrite Hbest in Hh. rewrite Hh. intros Hnil.
      assert (user_col ∈ foldl add_key [] fieldnames) as Hin'
        by (apply foldl_add_key_elem; by right).
      rewrite Hnil in Hin'. by apply elem_of_nil in Hin'. }
  assert (forall col, col ∈ fieldnames -> col ∈ header) as Hcols.
  { intros col Hcol. subst header.
    destruct best as [|[k0 [t0 r0]] best'] eqn:Hbest; [done|].
    assert ((k0, (t0, r0)) ∈ best) as Hin
      by (rewrite Hbest; apply list_elem_of_here).
    destruct (rectangular_rows_fit user_col item_col ts_col _ _ Hrect _ Hin)
      as [_ Hh]. cbv zeta in Hh. fold rows best in Hh.
    rewrite Hbest in Hh. rewrite Hh. apply foldl_add_key_elem. by right. }
  pose proof (output_rows header items Hne Hkeys) as Hrows2.
  assert (final_table user_col item_col ts_col (map row_of items) = items)
    as Hbest2 by by apply final_table_fresh.
  assert (output_header header items = header) as Hhead2.
  { destruct items as [|[k0 [t0 r0]] items'] eqn:Hitems; [done|].
    cbn. apply (Hkeys (k0, (t0, r0))), list_elem_of_here. }
  assert (length items = length best) as Hlen by by rewrite Hperm.
  assert (map (fun it => record_of header (row_of it)) again
          = map (fun it => record_of header (row_of it)) items ->
          again = items) as Hinj.
  { intros Hmap. eapply map_eq_permutation; [|exact Hperm2|exact Hmap].
    intros it it' Hit Hit'. rewrite Hperm2 in Hit, Hit'.
    rewrite Forall_forall in Hco.
    destruct (Hkeys it Hit) as [Hh Hndh]. destruct (Hkeys it' Hit') as [Hh' _].
    apply (written_record_inj user_col item_col ts_col header); auto.
    by rewrite <-Hh. }
  exists best, items, again, header, (length rows), w1.
  eexists. split_and!.
  - eexists. apply scan_run.
  - intros k. apply final_table_newest.
  - done.
  - done.
  - done.
  - by apply dedup_ratings_rectangular.
  - done.
  - done.
  - rewrite (coherent_keys user_col item_col ts_col); done.
  - unfold output_file in Hf1.
    rewrite (dedup_ratings_rectangular out1 out2 user_col item_col ts_col
               rating_col keep2 w1 header _ Hf1); try done.
    + fold (output_file header items). rewrite Hrows2, Hbest2, Hhead2.
      rewrite length_map, Hlen. reflexivity.
    + apply output_rectangular.
    + by apply Hcols.
    + by apply Hcols.
    + by apply Hcols.
    + by apply Hcols.
  - cbn [after_write files]. by rewrite lookup_insert_eq.
  - done.
  - split.
    + intros Hsame. unfold output_file in Hsame. injection Hsame as Hmap.
      apply Hinj in Hmap. subst again. destruct keep2; [|by left].
      right. by apply sort_by_ts_fixed.
    + intros Hcase.
      assert (again = items) as ->; [|done].
      subst again. destruct keep2; [|done].
      destruct Hcase as [?|Hsorted]; [done|]. by apply sort_by_ts_fixed.
  - intros Hk. subst items. rewrite Hk. apply sort_by_ts_sorted.
Qed.

(** C5. When the header of the input lacks one of the four column names,
    [dedup_ratings] raises the error that lists the available columns and
    leaves the state as it found it: no directory made, no file opened for
    writing, no record written. *)
Theorem missing_column_fails_before_output
    (inpath outpath user_col item_col ts_col rating_col : string)
    (keep_order : bool) (w : world) (f : csv_file) (fieldnames : list string) :
  files w !! inpath = Some f ->
  DictReader_fieldnames f = Some fieldnames ->
  user_col ∉ fieldnames \/ item_col ∉ fieldnames \/
    ts_col ∉ fieldnames \/ rating_col ∉ fieldnames ->
  dedup_ratings inpath outpath user_col item_col ts_col rating_col keep_order w
  = (Raise (MissingColumns fieldnames), w).
Proof.
  intros Hf Hh Hmiss. unfold dedup_ratings.
  rewrite run_bind. unfold path_exists.
  rewrite bool_decide_true by (rewrite Hf; eauto). cbn [negb].
  rewrite run_bind. unfold open_read at 1. rewrite Hf, Hh.
  assert (bool_decide (user_col ∉ fieldnames)
          || bool_decide (item_col ∉ fieldnames)
          || bool_decide (ts_col ∉ fieldnames)
          || bool_decide (rating_col ∉ fieldnames) = true) as ->; [|done].
  rewrite !orb_true_iff, !bool_decide_eq_true. tauto.
Qed.

End with_builtins.
End DedupFacts.

Module FilterFacts.
Import Py Csv FilterLowActivityUsers Spec.
Import MonadFacts DictFacts CsvFacts.

Section counting.
Context (user_col : string).

Local Abbreviation incr :=
  (fun (counts : gmap string nat) (r : row) =>
     counter_incr counts (row_get r user_col)).

Lemma for_each_count (rows : list row) (counts : gmap string nat) (w : world) :
  for_each (fun counts r =>
              let uid := row_get r user_col in
              mret (counter_incr counts uid)) rows counts w
  = (Return (foldl incr counts rows), w).
Proof.
  revert counts. induction rows as [|r rows IH]; intros counts; [done|].
  cbn [for_each foldl]. rewrite run_bind, run_ret. apply IH.
Qed.

Lemma counts_lookup (rows : list row) (counts : gmap string nat) (uid : string) :
  foldl incr counts rows !! uid
  = match occurrences user_col rows uid with
    | O => counts !! uid
    | S n => Some (default 0 (counts !! uid) + S n)%nat
    end.
Proof.
  unfold occurrences. revert counts.
  induction rows as [|r rows IH]; intros counts; [done|].
  cbn [foldl]. rewrite IH, filter_cons. unfold counter_incr.
  destruct (decide (row_get r user_col = uid)) as [->|Hne].
  - rewrite lookup_insert_eq. cbn [length default]. unfold id.
    destruct (length _); f_equal; lia.
  - by rewrite lookup_insert_ne.
Qed.

Lemma keep_users_elem (rows : list row) (threshold : Z) (r : row) :
  r ∈ rows ->
  row_get r user_col
    ∈ dom (filter (fun uc : string * nat => threshold <= Z.of_nat (snd uc))
                  (foldl incr ∅ rows))
  <-> threshold
      <= Z.of_nat (occurrences user_col rows (row_get r user_col)).
Proof.
  intros Hr. rewrite elem_of_dom. unfold is_Some.
  setoid_rewrite map_lookup_filter_Some. rewrite counts_lookup.
  assert (occurrences user_col rows (row_get r user_col) <> 0%nat) as Hpos.
  { unfold occurrences. intros Hlen%length_zero_iff_nil.
    by eapply (filter_nil_not_elem_of _ _ r) in Hlen. }
  destruct (occurrences _ _ _) as [|n]; [done|].
  rewrite lookup_empty. cbn [default Nat.add snd]. split.
  - intros (c & [= <-] & Hc). done.
  - intros Hc. eexists. split; [done|]. done.
Qed.

End counting.

Lemma for_each_write_if_kept (outpath user_col : string)
    (header : list string) (keep_users : gset string) (rows : list row)
    (kept total : nat) (content : csv_file)
    (fs : gmap string csv_file) (w : world) :
  (forall r, r ∈ rows -> forall k, k ∈ dict_keys r -> k ∈ header) ->
  let written := filter (fun r => row_get r user_col ∈ keep_users) rows in
  for_each (write_if_kept outpath user_col header keep_users) rows
           (kept, total) (set_files (<[outpath := content]> fs) w)
  = (Return ((kept + length written)%nat, (total + length rows)%nat),
     set_files (<[outpath := content ++ map (record_of header) written]> fs) w).
Proof.
  revert kept total content.
  induction rows as [|r rows IH]; intros kept total content Hsub written.
  - cbn. by rewrite !Nat.add_0_r, app_nil_r.
  - subst written. cbn [for_each]. rewrite run_bind.
    unfold write_if_kept at 1. rewrite filter_cons.
    assert (forall r', r' ∈ rows -> forall k, k ∈ dict_keys r' -> k ∈ header)
      as Hsub' by (intros r' Hr'; apply Hsub; by apply list_elem_of_further).
    destruct (decide (row_get r user_col ∈ keep_users)) as [Hin|Hout].
    + rewrite bool_decide_true by done.
      rewrite run_bind, writerow_run by apply Hsub, list_elem_of_here.
      rewrite write_record_run, run_ret, IH by done.
      cbn [map length]. rewrite <-app_assoc, !Nat.add_succ_r. done.
    + rewrite bool_decide_false by done.
      rewrite run_ret, IH by done.
      cbn [length]. rewrite !Nat.add_succ_r. done.
Qed.



End FilterFacts.

(** * Further properties of [dedup_ratings] *)

Module DedupEdgeFacts.
Import Py Csv DedupRatings Spec.
Import MonadFacts DictFacts CsvFacts SortFacts RecencyFacts RetentionFacts.
Import DedupFacts.

Lemma upto_last_slash_bare (p : string) :
  bare_name p -> upto_last_slash p = None.
Proof.
  unfold bare_name. induction p as [|c p IH]; cbn; [done|].
  intros [Hc Hp]%Forall_cons. by rewrite IH, Hc.
Qed.

Lemma blank_records_no_rows (fieldnames : list string)
    (records : list (list string)) :
  Forall (fun record => record = []) records ->
  DictReader_rows (fieldnames :: records) = [].
Proof.
  intros Hblank. unfold DictReader_rows.
  assert (filter (fun record : list string => record <> []) records = [])
    as ->; [|done].
  induction Hblank as [|record records -> _ IH]; [done|].
  rewrite filter_cons_False; [done|]. intros Hne. by apply Hne.
Qed.

Lemma map_snd_combine {A B} (l : list A) (k : list B) :
  length k = length l -> map snd (combine l k) = k.
Proof.
  revert k. induction l as [|x l IH]; intros [|y k] Hlen; cbn in *; try done.
  f_equal. apply IH. lia.
Qed.

Lemma first_seen_NoDup {K} `{EqDecision K} (l : list K) :
  NoDup l -> first_seen l = l.
Proof.
  unfold first_seen. intros Hnd.
  assert (forall ks : list K,
            NoDup (ks ++ l) -> foldl add_key ks l = ks ++ l) as Hgen.
  { clear Hnd. induction l as [|x l IH]; intros ks Hnd; cbn.
    - by rewrite app_nil_r.
    - unfold add_key at 2. rewrite decide_False.
      + rewrite IH; rewrite <-app_assoc; done.
      + apply NoDup_app in Hnd as (_ & Hdisj & _).
        intros Hin. destruct (Hdisj _ Hin). apply list_elem_of_here. }
  by apply (Hgen []).
Qed.

(** With distinct column names a row is its record under the header, and
    is written as that record. *)
Lemma row_of_record (header record : list string) :
  NoDup header -> length record = length header ->
  dict (combine header record) = combine header record /\
  dict_keys (dict (combine header record)) = header /\
  record_of header (dict (combine header record)) = record.
Proof.
  intros Hnd Hlen.
  assert (dict (combine header record) = combine header record) as Hdict.
  { apply dict_NoDup. by rewrite map_fst_combine. }
  assert (dict_keys (combine header record) = header) as Hkeys
    by by apply map_fst_combine.
  rewrite Hdict. split_and!; [done|done|].
  rewrite <-(map_snd_combine header record) at 2 by done.
  rewrite <-(combine_keys_record (combine header record)) at 2
    by by rewrite Hkeys.
  rewrite Hkeys, map_snd_combine; [done|].
  unfold record_of. by rewrite length_map.
Qed.

Lemma rows_of_records (header : list string) (records : list (list string)) :
  NoDup header -> rectangular (header :: records) ->
  map (record_of header) (DictReader_rows (header :: records))
  = filter (fun record => record <> []) records.
Proof.
  intros Hnd Hrect. unfold DictReader_rows.
  assert (forall record,
            record ∈ filter (fun record => record <> []) records ->
            length record = length header) as Hlen.
  { intros record [Hne Hin]%list_elem_of_filter. by apply Hrect. }
  induction (filter _ records) as [|record l IH]; [done|].
  cbn [map]. f_equal.
  - apply row_of_record; [done|]. apply Hlen, list_elem_of_here.
  - apply IH. intros r Hr. apply Hlen. by apply list_elem_of_further.
Qed.

Lemma dirname_bare (p : string) : bare_name p -> dirname p = EmptyString.
Proof. intros Hp. unfold dirname. by rewrite upto_last_slash_bare. Qed.

Section with_builtins.
Context `{Builtins}.

Lemma parsed_run (value : string) :
  recency value = default 0 (parsed value) /\
  warnings value = match parsed value with
                   | Some _ => []
                   | None => [warning_text value]
                   end.
Proof.
  pose proof (to_int_safe_cases value blank) as Hc.
  pose proof (to_int_safe_run value blank) as Hr.
  assert (forall n log,
            to_int_safe value blank = (Return n, add_stderr log blank) ->
            recency value = n /\ warnings value = log) as Hread.
  { intros n log Hrun. rewrite Hrun in Hr.
    pose proof (f_equal fst Hr) as Hn.
    pose proof (f_equal (fun x => stderr (snd x)) Hr) as Hw.
    cbn in Hn, Hw. injection Hn as ->. by rewrite Hw. }
  unfold parsed.
  destruct (int_of_str value) as [n|].
  { apply Hread. by rewrite add_stderr_nil. }
  destruct (float_of_str value) as [[s|s| |s m e]|]; cbn [truncation default];
    apply Hread; by rewrite ?add_stderr_nil.
Qed.

Lemma scan_warnings_unparsable (ts_col : string) (rows : list row) :
  scan_warnings ts_col rows
  = map warning_text
        (filter (fun value => parsed value = None)
                (map (fun r => row_get r ts_col) rows)).
Proof.
  unfold scan_warnings. induction rows as [|r rows IH]; [done|].
  cbn [map concat]. rewrite IH, filter_cons.
  destruct (parsed_run (row_get r ts_col)) as [_ ->].
  destruct (parsed (row_get r ts_col)); by case_decide.
Qed.

(** The run up to the end of the scan. *)
Lemma dedup_ratings_after_scan
    (inpath outpath user_col item_col ts_col rating_col : string)
    (keep_order : bool) (w : world)
    (fieldnames : list string) (records : list (list string)) :
  let rows := DictReader_rows (fieldnames :: records) in
  let best := final_table user_col item_col ts_col rows in
  files w !! inpath = Some (fieldnames :: records) ->
  user_col ∈ fieldnames -> item_col ∈ fieldnames ->
  ts_col ∈ fieldnames -> rating_col ∈ fieldnames ->
  dedup_ratings inpath outpath user_col item_col ts_col rating_col keep_order w
  = (makedirs (dirname outpath);;
     header ← match best with
              | (_, (_, r)) :: _ => mret (dict_keys r)
              | [] =>
                  fh' ← open_read inpath;
                  mret (default [] (DictReader_fieldnames fh'))
              end;
     let items := if keep_order then sort_by_ts best else best in
     open_write outpath;;
     DictWriter_writeheader outpath header;;
     for_each (fun _ it => DictWriter_writerow outpath header (snd (snd it)))
              items tt;;
     mret (length best, length rows))
      (add_stderr (scan_warnings ts_col rows) w).
Proof.
  intros rows best Hf Hu Hi Ht Hr. unfold dedup_ratings.
  rewrite run_bind. unfold path_exists.
  rewrite bool_decide_true by (rewrite Hf; eauto). cbn [negb].
  rewrite run_bind. unfold open_read at 1. rewrite Hf.
  cbn [DictReader_fieldnames head].
  rewrite !bool_decide_false by (intros Hn; by apply Hn). cbn [orb].
  rewrite run_bind, for_each_scan_row. reflexivity.
Qed.

(** X1. An input path that does not exist, and an input file without any
    record, are refused before anything is made: the first with a line on
    the error stream and [FileNotFoundError], the second with the
    no-header error; no directory, no file. *)
Theorem input_errors_leave_no_output
    (inpath outpath user_col item_col ts_col rating_col : string)
    (keep_order : bool) (w : world) :
  (files w !! inpath = None ->
   dedup_ratings inpath outpath user_col item_col ts_col rating_col
                 keep_order w
   = (Raise (FileNotFoundError inpath),
      add_stderr ["Error: input file does not exist: " +:+ inpath
                  +:+ newline] w)) /\
  (files w !! inpath = Some [] ->
   dedup_ratings inpath outpath user_col item_col ts_col rating_col
                 keep_order w
   = (Raise (ValueError "Input CSV has no header"), w)).
Proof.
  split; intros Hf; unfold dedup_ratings; rewrite run_bind; unfold path_exists.
  - rewrite bool_decide_false by (rewrite Hf; by intros [? ?]). reflexivity.
  - rewrite bool_decide_true by (rewrite Hf; eauto). cbn [negb].
    rewrite run_bind. unfold open_read. by rewrite Hf.
Qed.

(** X2. An input with a header and no row (blank records apart): the run
    returns 0 kept of 0, and the output file is the input header alone,
    taken from a second reading of the input. *)
Theorem header_only_input
    (inpath outpath user_col item_col ts_col rating_col : string)
    (keep_order : bool) (w : world)
    (fieldnames : list string) (records : list (list string)) :
  files w !! inpath = Some (fieldnames :: records) ->
  Forall (fun record => record = []) records ->
  user_col ∈ fieldnames -> item_col ∈ fieldnames ->
  ts_col ∈ fieldnames -> rating_col ∈ fieldnames ->
  dirname outpath <> EmptyString ->
  dedup_ratings inpath outpath user_col item_col ts_col rating_col keep_order w
  = (Return (0%nat, 0%nat), after_write outpath [fieldnames] [] w).
Proof.
  intros Hf Hblank Hu Hi Ht Hr Hdir.
  pose proof (blank_records_no_rows fieldnames records Hblank) as Hrows.
  pose proof (dedup_ratings_run inpath outpath user_col item_col ts_col
                rating_col keep_order w fieldnames records
                Hf Hu Hi Ht Hr Hdir) as Hrun.
  cbv zeta in Hrun. rewrite Hrows in Hrun. cbn in Hrun.
  rewrite Hrun.
  - by destruct keep_order.
  - by intros it ?%elem_of_nil.
Qed.

(** X3. An output path that is a bare file name has no directory to make:
    on a rectangular input with the four columns the run reads and scans
    the whole input, writes its warnings, and then fails at [os.makedirs]
    without writing a file. *)
Theorem bare_output_name_fails_after_scan
    (inpath outpath user_col item_col ts_col rating_col : string)
    (keep_order : bool) (w : world)
    (fieldnames : list string) (records : list (list string)) :
  files w !! inpath = Some (fieldnames :: records) ->
  rectangular (fieldnames :: records) ->
  user_col ∈ fieldnames -> item_col ∈ fieldnames ->
  ts_col ∈ fieldnames -> rating_col ∈ fieldnames ->
  bare_name outpath ->
  dedup_ratings inpath outpath user_col item_col ts_col rating_col keep_order w
  = (Raise (NoSuchFileOrDirectory EmptyString),
     add_stderr (scan_warnings ts_col (DictReader_rows (fieldnames :: records)))
                w).
Proof.
  intros Hf _ Hu Hi Ht Hr Hbare.
  rewrite (dedup_ratings_after_scan _ _ _ _ _ _ _ _ _ _ Hf Hu Hi Ht Hr).
  rewrite run_bind, (dirname_bare _ Hbare). reflexivity.
Qed.

(** X4. A run that succeeds writes to the error stream one warning for
    each row whose timestamp cell parses neither as an integer nor as a
    float with an integer part, in input order, and nothing else; it
    writes nothing to the output stream. *)
Theorem one_warning_per_unparsable_row
    (inpath outpath user_col item_col ts_col rating_col : string)
    (keep_order : bool) (w : world)
    (fieldnames : list string) (records : list (list string)) :
  files w !! inpath = Some (fieldnames :: records) ->
  rectangular (fieldnames :: records) ->
  user_col ∈ fieldnames -> item_col ∈ fieldnames ->
  ts_col ∈ fieldnames -> rating_col ∈ fieldnames ->
  dirname outpath <> EmptyString ->
  exists (counts : nat * nat) (w' : world),
    dedup_ratings inpath outpath user_col item_col ts_col rating_col
                  keep_order w
    = (Return counts, w') /\
    stderr w'
    = stderr w
      ++ map warning_text
           (filter (fun value => parsed value = None)
                   (map (fun r => row_get r ts_col)
                        (DictReader_rows (fieldnames :: records)))) /\
    stdout w' = stdout w.
Proof.
  intros Hf Hrect Hu Hi Ht Hr Hdir. do 2 eexists. split.
  - by apply dedup_ratings_rectangular.
  - cbn [after_write stderr stdout]. by rewrite scan_warnings_unparsable.
Qed.

(** What is read back from the written file are the stored rows. *)
Lemma written_rows_read_back
    (user_col item_col ts_col : string) (keep_order : bool)
    (fieldnames : list string) (records : list (list string)) :
  let rows := DictReader_rows (fieldnames :: records) in
  let best := final_table user_col item_col ts_col rows in
  let header := output_header fieldnames best in
  let items := if keep_order then sort_by_ts best else best in
  rectangular (fieldnames :: records) ->
  user_col ∈ fieldnames ->
  DictReader_rows (output_file header items) = map row_of items /\
  map (key_of user_col item_col) (map row_of items) = dict_keys items /\
  items ≡ₚ best.
Proof.
  intros rows best header items Hrect Hu.
  assert (items ≡ₚ best) as Hperm.
  { subst items. destruct keep_order; [apply sort_by_ts_perm|done]. }
  assert (Forall (coherent user_col item_col ts_col) items) as Hco.
  { rewrite Hperm. apply Forall_forall. intros it Hit.
    by apply final_table_entries in Hit as [? _]. }
  split_and!; [|by apply (coherent_keys user_col item_col ts_col)|done].
  destruct items as [|it0 items'] eqn:Hitems; [done|].
  assert (it0 ∈ best) as Hit0 by (rewrite <-Hperm; apply list_elem_of_here).
  destruct (rectangular_rows_fit user_col item_col ts_col _ _ Hrect it0 Hit0)
    as [_ Hhead]. cbv zeta in Hhead. fold rows best header in Hhead.
  apply output_rows.
  - rewrite Hhead. intros Hnil.
    assert (user_col ∈ foldl add_key [] fieldnames) as Hin'
      by (apply foldl_add_key_elem; by right).
    rewrite Hnil in Hin'. by apply elem_of_nil in Hin'.
  - intros it Hit. rewrite Hperm in Hit.
    destruct (rectangular_rows_fit user_col item_col ts_col _ _ Hrect it Hit)
      as [Hk _]. rewrite Hhead, Hk.
    split; [done|]. apply foldl_add_key_NoDup, NoDup_nil_2.
Qed.

(** X5. The output holds every composite key of the input exactly once.
    Without [keep_order] the keys stand in the order in which they first
    occur in the input. *)
Theorem one_row_per_key
    (inpath outpath user_col item_col ts_col rating_col : string)
    (keep_order : bool) (w : world)
    (fieldnames : list string) (records : list (list string)) :
  files w !! inpath = Some (fieldnames :: records) ->
  rectangular (fieldnames :: records) ->
  user_col ∈ fieldnames -> item_col ∈ fieldnames ->
  ts_col ∈ fieldnames -> rating_col ∈ fieldnames ->
  dirname outpath <> EmptyString ->
  exists (counts : nat * nat) (w' : world) (content : csv_file),
    dedup_ratings inpath outpath user_col item_col ts_col rating_col
                  keep_order w
    = (Return counts, w') /\
    files w' !! outpath = Some content /\
    NoDup (map (key_of user_col item_col) (DictReader_rows content)) /\
    (forall k,
       k ∈ map (key_of user_col item_col) (DictReader_rows content)
       <-> k ∈ map (key_of user_col item_col)
                   (DictReader_rows (fieldnames :: records))) /\
    (keep_order = false ->
     map (key_of user_col item_col) (DictReader_rows content)
     = first_seen (map (key_of user_col item_col)
                       (DictReader_rows (fieldnames :: records)))).
Proof.
  intros Hf Hrect Hu Hi Ht Hr Hdir.
  destruct (written_rows_read_back user_col item_col ts_col keep_order
              fieldnames records Hrect Hu) as (Hrows & Hkeys & Hperm).
  cbv zeta in Hrows, Hkeys, Hperm.
  set (rows := DictReader_rows (fieldnames :: records)) in *.
  set (best := final_table user_col item_col ts_col rows) in *.
  do 3 eexists. split_and!.
  - by apply dedup_ratings_rectangular.
  - cbn [after_write files]. by rewrite lookup_insert_eq.
  - fold rows best. rewrite Hrows, Hkeys. unfold dict_keys.
    rewrite Hperm. apply final_table_keys_NoDup.
  - intros k. fold rows best. rewrite Hrows, Hkeys. unfold dict_keys.
    rewrite Hperm. fold (dict_keys best). subst best.
    rewrite final_table_keys, foldl_add_key_elem.
    split; [by intros [?%elem_of_nil|?]|by right].
  - intros ->. fold rows best. fold rows best in Hrows, Hkeys.
    rewrite Hrows, Hkeys. apply final_table_keys.
Qed.

Lemma output_header_distinct
    (user_col item_col ts_col : string)
    (fieldnames : list string) (records : list (list string)) :
  NoDup fieldnames -> rectangular (fieldnames :: records) ->
  output_header fieldnames
    (final_table user_col item_col ts_col
       (DictReader_rows (fieldnames :: records)))
  = fieldnames.
Proof.
  intros Hnd Hrect.
  destruct (final_table _ _ _ _) as [|it best'] eqn:Hbest; [done|].
  assert (it ∈ final_table user_col item_col ts_col
                 (DictReader_rows (fieldnames :: records))) as Hin
    by (rewrite Hbest; apply list_elem_of_here).
  destruct (rectangular_rows_fit user_col item_col ts_col _ _ Hrect it Hin)
    as [_ Hhead]. cbv zeta in Hhead. rewrite Hbest in Hhead.
  rewrite Hhead. by apply (first_seen_NoDup fieldnames).
Qed.

(** X6. With distinct column names, the output file has the header of the
    input, and every record under it is a record of the input, cell for
    cell: nothing is rewritten or made up. *)
Theorem output_records_are_input_records
    (inpath outpath user_col item_col ts_col rating_col : string)
    (keep_order : bool) (w : world)
    (fieldnames : list string) (records : list (list string)) :
  files w !! inpath = Some (fieldnames :: records) ->
  rectangular (fieldnames :: records) ->
  NoDup fieldnames ->
  user_col ∈ fieldnames -> item_col ∈ fieldnames ->
  ts_col ∈ fieldnames -> rating_col ∈ fieldnames ->
  dirname outpath <> EmptyString ->
  exists (kept total : nat) (w' : world) (written : list (list string)),
    dedup_ratings inpath outpath user_col item_col ts_col rating_col
                  keep_order w
    = (Return (kept, total), w') /\
    files w' !! outpath = Some (fieldnames :: written) /\
    length written = kept /\
    forall record, record ∈ written -> record ∈ records /\ record <> [].
Proof.
  intros Hf Hrect Hnd Hu Hi Ht Hr Hdir.
  set (rows := DictReader_rows (fieldnames :: records)).
  set (best := final_table user_col item_col ts_col rows).
  set (items := if keep_order then sort_by_ts best else best).
  assert (items ≡ₚ best) as Hperm.
  { subst items. destruct keep_order; [apply sort_by_ts_perm|done]. }
  exists (length best), (length rows). eexists.
  exists (map (fun it => record_of fieldnames (row_of it)) items).
  split_and!.
  - by apply dedup_ratings_rectangular.
  - cbn [after_write files]. rewrite lookup_insert_eq.
    fold rows best items. unfold output_file.
    subst best rows. by rewrite output_header_distinct.
  - by rewrite length_map, Hperm.
  - intros record (it & -> & Hit)%elem_of_map. rewrite Hperm in Hit.
    apply final_table_entries in Hit as [_ Hrow].
    apply elem_of_map in Hrow as (rec & -> & Hrec).
    apply list_elem_of_filter in Hrec as [Hne Hrec].
    destruct (row_of_record fieldnames rec Hnd) as (_ & _ & ->);
      [by apply Hrect|done].
Qed.

(** X7. When the composite keys of the input rows are pairwise distinct
    and the column names are distinct, a run without [keep_order] copies
    the input: the output is the header and the records of the input in
    their order, blank records left out, and kept equals total. *)
Theorem distinct_keys_copy_input
    (inpath outpath user_col item_col ts_col rating_col : string)
    (w : world) (fieldnames : list string) (records : list (list string)) :
  files w !! inpath = Some (fieldnames :: records) ->
  rectangular (fieldnames :: records) ->
  NoDup fieldnames ->
  NoDup (map (key_of user_col item_col)
             (DictReader_rows (fieldnames :: records))) ->
  user_col ∈ fieldnames -> item_col ∈ fieldnames ->
  ts_col ∈ fieldnames -> rating_col ∈ fieldnames ->
  dirname outpath <> EmptyString ->
  exists (n : nat) (w' : world),
    dedup_ratings inpath outpath user_col item_col ts_col rating_col false w
    = (Return (n, n), w') /\
    files w' !! outpath
    = Some (fieldnames :: filter (fun record => record <> []) records).
Proof.
  intros Hf Hrect Hnd Hkeys Hu Hi Ht Hr Hdir.
  set (rows := DictReader_rows (fieldnames :: records)) in *.
  assert (final_table user_col item_col ts_col rows
          = map (entry_of user_col item_col ts_col) rows) as Hbest.
  { rewrite <-(final_table_fresh user_col item_col ts_col
                 (map (entry_of user_col item_col ts_col) rows)).
    - f_equal. rewrite map_map. symmetry. apply map_id.
    - apply Forall_forall. by intros it (r & -> & _)%elem_of_map.
    - unfold dict_keys. by rewrite map_map. }
  exists (length rows). eexists. split.
  - rewrite (dedup_ratings_rectangular inpath outpath user_col item_col
               ts_col rating_col false w fieldnames records) by done.
    fold rows. rewrite Hbest, length_map. reflexivity.
  - pose proof (output_header_distinct user_col item_col ts_col
                  fieldnames records Hnd Hrect) as Hhead.
    pose proof (rows_of_records fieldnames records Hnd Hrect) as Hrecs.
    fold rows in Hhead, Hrecs.
    cbn [after_write files]. rewrite lookup_insert_eq.
    unfold output_file. fold rows. rewrite Hbest in Hhead.
    rewrite Hhead, map_map, <-Hrecs. do 2 f_equal.
Qed.

End with_builtins.
End DedupEdgeFacts.

(** * What the scripts leave alone, and how [main] ends *)

Module TameFacts.
Import Py Csv Spec MonadFacts.

Lemma same_files_refl (path : string) (w : world) : same_files_except path w w.
Proof. by intros p _. Qed.

Lemma same_files_trans (path : string) (w1 w2 w3 : world) :
  same_files_except path w1 w2 -> same_files_except path w2 w3 ->
  same_files_except path w1 w3.
Proof. intros H12 H23 p Hp. by rewrite H23, H12. Qed.

Lemma tame_ret (path : string) {A} (a : A) : tame path (mret a : M A).
Proof.
  intros w r w' [= <- <-]. split; [apply same_files_refl|done].
Qed.

Lemma tame_raise (path : string) {A} (e : exn) :
  is_Exception e = true -> tame path (raise e : M A).
Proof.
  intros He w r w' [= <- <-]. split; [apply same_files_refl|].
  by intros e' [= <-].
Qed.

Lemma tame_bind (path : string) {A B} (m : M A) (f : A -> M B) :
  tame path m -> (forall a, tame path (f a)) -> tame path (m ≫= f).
Proof.
  intros Hm Hf w r w'. rewrite run_bind.
  destruct (m w) as [[e|a] w1] eqn:Hmw.
  - intros [= <- <-]. destruct (Hm w _ _ Hmw) as [H1 He].
    split; [done|]. intros e' [= <-]. by apply He.
  - intros Hfa. destruct (Hm w _ _ Hmw) as [H1 _].
    destruct (Hf a w1 _ _ Hfa) as [H2 He].
    split; [by eapply same_files_trans|done].
Qed.

Lemma tame_try_except (path : string) {A} (m : M A) (h : exn -> M A) :
  tame path m -> (forall e, tame path (h e)) -> tame path (try_except m h).
Proof.
  intros Hm Hh w r w'. unfold try_except.
  destruct (m w) as [[e|a] w1] eqn:Hmw.
  - destruct (Hm w _ _ Hmw) as [H1 He]. rewrite (He e eq_refl).
    intros Hhe. destruct (Hh e w1 _ _ Hhe) as [H2 He'].
    split; [by eapply same_files_trans|done].
  - intros [= <- <-]. by apply (Hm w).
Qed.

Lemma tame_for_each (path : string) {A S} (body : S -> A -> M S)
    (l : list A) (s : S) :
  (forall s x, tame path (body s x)) -> tame path (for_each body l s).
Proof.
  intros Hbody. revert s. induction l as [|x l IH]; intros s; cbn [for_each].
  - apply tame_ret.
  - apply tame_bind; [apply Hbody|intros s'; apply IH].
Qed.

(** A step that returns and leaves the files as they are. *)
Lemma tame_quiet (path : string) {A} (m : M A) :
  (forall w, exists a w', m w = (Return a, w') /\ files w' = files w) ->
  tame path m.
Proof.
  intros Hm w r w' Hrun. destruct (Hm w) as (a & w1 & Hw & Hfiles).
  rewrite Hw in Hrun. injection Hrun as <- <-.
  split; [|done]. intros p _. by rewrite Hfiles.
Qed.

Lemma tame_stderr_write (path text : string) : tame path (stderr_write text).
Proof. apply tame_quiet. intros w. by eexists _, _. Qed.

Lemma tame_print_stderr (path text : string) : tame path (print_stderr text).
Proof. apply tame_stderr_write. Qed.

Lemma tame_print (path text : string) : tame path (print text).
Proof. apply tame_quiet. intros w. by eexists _, _. Qed.

Lemma tame_path_exists (path p : string) : tame path (path_exists p).
Proof. apply tame_quiet. intros w. by eexists _, _. Qed.

Lemma tame_open_read (path p : string) : tame path (open_read p).
Proof.
  intros w r w'. unfold open_read. destruct (files w !! p).
  - intros [= <- <-]. split; [apply same_files_refl|done].
  - intros [= <- <-]. split; [apply same_files_refl|]. by intros e' [= <-].
Qed.

Lemma tame_makedirs (path d : string) : tame path (makedirs d).
Proof.
  intros w r w'. unfold makedirs. destruct (decide _).
  - intros [= <- <-]. split; [apply same_files_refl|]. by intros e' [= <-].
  - intros [= <- <-]. split; [|done]. by intros p _.
Qed.

Lemma tame_open_write (path : string) : tame path (open_write path).
Proof.
  intros w r w' [= <- <-]. split; [|done].
  intros p Hp. cbn. by rewrite lookup_insert_ne.
Qed.

Lemma tame_write_record (path : string) (record : list string) :
  tame path (write_record path record).
Proof.
  intros w r w' [= <- <-]. split; [|done].
  intros p Hp. cbn. by rewrite lookup_alter_ne.
Qed.

Lemma tame_writerow (path : string) (fieldnames : list string) (r : row) :
  tame path (DictWriter_writerow path fieldnames r).
Proof.
  unfold DictWriter_writerow. destruct (filter _ _).
  - apply tame_write_record.
  - by apply tame_raise.
Qed.

Lemma tame_writeheader (path : string) (fieldnames : list string) :
  tame path (DictWriter_writeheader path fieldnames).
Proof. apply tame_writerow. Qed.

End TameFacts.

Module DedupTameFacts.
Import Py Csv DedupRatings Spec.
Import MonadFacts RecencyFacts TameFacts.

Section with_builtins.
Context `{Builtins}.

Lemma tame_to_int_safe (path value : string) : tame path (to_int_safe value).
Proof.
  apply tame_quiet. intros w. rewrite to_int_safe_run. by eexists _, _.
Qed.

Lemma tame_scan_row (path user_col item_col ts_col : string)
    (st : table * nat) (r : row) :
  tame path (scan_row user_col item_col ts_col st r).
Proof.
  destruct st as [best total]. unfold scan_row.
  apply tame_bind; [apply tame_to_int_safe|intros ts; apply tame_ret].
Qed.

Lemma tame_dedup_ratings
    (inpath outpath user_col item_col ts_col rating_col : string)
    (keep_order : bool) :
  tame outpath (dedup_ratings inpath outpath user_col item_col ts_col
                              rating_col keep_order).
Proof.
  unfold dedup_ratings.
  apply tame_bind; [apply tame_path_exists|intros present].
  destruct (negb present).
  { apply tame_bind; [apply tame_stderr_write|intros _]. by apply tame_raise. }
  apply tame_bind; [apply tame_open_read|intros fh].
  destruct (DictReader_fieldnames fh) as [fieldnames|]; [|by apply tame_raise].
  destruct (_ || _); [by apply tame_raise|].
  apply tame_bind.
  { apply tame_for_each. intros st r. apply tame_scan_row. }
  intros [best total].
  apply tame_bind; [apply tame_makedirs|intros _].
  apply tame_bind.
  { destruct best as [|[k [t r]] best']; [|apply tame_ret].
    apply tame_bind; [apply tame_open_read|intros fh'; apply tame_ret]. }
  intros header.
  apply tame_bind; [apply tame_open_write|intros _].
  apply tame_bind; [apply tame_writeheader|intros _].
  apply tame_bind; [|intros _; apply tame_ret].
  apply tame_for_each. intros _ it. apply tame_writerow.
Qed.

(** X8. However a run of [dedup_ratings] ends, by returning or by raising,
    no file other than the output path has been made, emptied or changed:
    with different paths the input is as it was. *)
Theorem dedup_touches_only_output
    (inpath outpath user_col item_col ts_col rating_col : string)
    (keep_order : bool) (w w' : world) (r : result (nat * nat)) :
  dedup_ratings inpath outpath user_col item_col ts_col rating_col keep_order w
  = (r, w') ->
  forall p, p <> outpath -> files w' !! p = files w !! p.
Proof.
  intros Hrun.
  by apply (tame_dedup_ratings inpath outpath user_col item_col ts_col
              rating_col keep_order w r w').
Qed.

(** X9. [main], once the arguments are parsed, never raises: when
    [dedup_ratings] returns it prints the two counts and ends with status
    0; when [dedup_ratings] raises it prints the error on the error stream
    and ends with status 2. *)
Theorem run_exit_status (args : Namespace) (w : world) :
  match dedup_ratings (input args) (output args) (user_col args)
                      (item_col args) (rating_col args) (timestamp_col args)
                      (keep_order args) w with
  | (Return (kept, total), w1) =>
      run args w
      = (Return 0,
         add_stdout (("Processed " +:+ pretty total +:+ " rows; kept "
                      +:+ pretty kept +:+ " unique (userId,movieId) pairs")
                     +:+ newline) w1)
  | (Raise e, w1) =>
      run args w
      = (Return 2, add_stderr [("Error: " +:+ exn_str e) +:+ newline] w1)
  end.
Proof.
  unfold run, try_except. rewrite run_bind.
  destruct (dedup_ratings _ _ _ _ _ _ _ w) as [[e|[kept total]] w1] eqn:Hrun.
  - destruct (tame_dedup_ratings _ _ _ _ _ _ _ _ _ _ Hrun) as [_ He].
    by rewrite (He e eq_refl).
  - reflexivity.
Qed.

End with_builtins.
End DedupTameFacts.

(** * Further properties of [filter_users] *)

Module FilterEdgeFacts.
Import Py Csv FilterLowActivityUsers Spec.
Import MonadFacts DictFacts CsvFacts TameFacts FilterFacts DedupEdgeFacts.

Lemma count_users_run (inpath user_col : string) (w : world)
    (fieldnames : list string) (records : list (list string)) :
  files w !! inpath = Some (fieldnames :: records) ->
  user_col ∈ fieldnames ->
  count_users inpath user_col w
  = (Return (foldl (fun counts r => counter_incr counts (row_get r user_col))
                   ∅ (DictReader_rows (fieldnames :: records))), w).
Proof.
  intros Hf Hu. unfold count_users.
  rewrite run_bind. unfold open_read at 1. rewrite Hf.
  cbn [DictReader_fieldnames head].
  rewrite bool_decide_false by (intros Hn; by apply Hn).
  apply for_each_count.
Qed.

(** X10. On a rectangular input with the user column, [count_users]
    reads without changing anything, and gives every user id the number of
    rows that carry it; an id that no row carries has no entry. *)
Theorem count_users_counts (inpath user_col : string) (w : world)
    (fieldnames : list string) (records : list (list string)) :
  files w !! inpath = Some (fieldnames :: records) ->
  rectangular (fieldnames :: records) ->
  user_col ∈ fieldnames ->
  exists counts : gmap string nat,
    count_users inpath user_col w = (Return counts, w) /\
    forall uid,
      counts !! uid
      = match occurrences user_col (DictReader_rows (fieldnames :: records))
                          uid with
        | O => None
        | S n => Some (S n)
        end.
Proof.
  intros Hf _ Hu. eexists. split; [by apply count_users_run|].
  intros uid. rewrite counts_lookup, lookup_empty.
  by destruct (occurrences _ _ _).
Qed.

(** X11. When the first pass fails, for a missing input, an input without
    any record, or a header without the user column, [filter_users] fails
    in the same way and has made nothing: no directory, no output file. *)
Theorem counting_errors_leave_no_output
    (inpath outpath user_col : string) (threshold : Z) (keep_order : bool)
    (w : world) :
  (files w !! inpath = None ->
   filter_users inpath outpath user_col threshold keep_order w
   = (Raise (NoSuchFileOrDirectory inpath), w)) /\
  (files w !! inpath = Some [] ->
   filter_users inpath outpath user_col threshold keep_order w
   = (Raise (ValueError "Input CSV has no header"), w)) /\
  (forall fieldnames records,
     files w !! inpath = Some (fieldnames :: records) ->
     user_col ∉ fieldnames ->
     filter_users inpath outpath user_col threshold keep_order w
     = (Raise (UserColumnNotFound user_col fieldnames), w)).
Proof.
  split_and!.
  - intros Hf. unfold filter_users, count_users.
    rewrite !run_bind. unfold open_read. by rewrite Hf.
  - intros Hf. unfold filter_users, count_users.
    rewrite !run_bind. unfold open_read. by rewrite Hf.
  - intros fieldnames records Hf Hu. unfold filter_users, count_users.
    rewrite !run_bind. unfold open_read. rewrite Hf.
    cbn [DictReader_fieldnames head]. by rewrite bool_decide_true.
Qed.

(** A run of [filter_users] from one path to another. *)
Lemma filter_users_run
    (inpath outpath user_col : string) (threshold : Z) (keep_order : bool)
    (w : world) (fieldnames : list string) (records : list (list string)) :
  let rows := DictReader_rows (fieldnames :: records) in
  let kept_rows := active_rows user_col threshold rows in
  files w !! inpath = Some (fieldnames :: records) ->
  rectangular (fieldnames :: records) ->
  user_col ∈ fieldnames ->
  inpath <> outpath ->
  dirname outpath <> EmptyString ->
  exists w' : world,
    filter_users inpath outpath user_col threshold keep_order w
    = (Return (length kept_rows), w') /\
    files w'
    = <[outpath := fieldnames :: map (record_of fieldnames) kept_rows]>
        (files w) /\
    dirs w' = {[ dirname outpath ]} ∪ dirs w /\
    stderr w' = stderr w.
Proof.
  intros rows kept_rows Hf Hrect Hu Hpaths Hdir.
  unfold filter_users.
  rewrite run_bind, (count_users_run _ _ _ _ _ Hf Hu). fold rows.
  set (keep_users := dom (filter _ (foldl _ ∅ rows))).
  rewrite run_bind. unfold makedirs at 1. rewrite decide_False by done.
  set (w1 := {| files := _; dirs := _; stderr := _; stdout := _ |}).
  rewrite run_bind. unfold open_read at 1.
  assert (files w1 !! inpath = Some (fieldnames :: records)) as -> by done.
  rewrite run_bind. unfold open_write at 1.
  rewrite run_bind. unfold open_read at 1.
  cbn [set_files files]. rewrite lookup_insert_ne by done.
  assert (files w1 !! inpath = Some (fieldnames :: records)) as -> by done.
  cbn [DictReader_fieldnames head default].
  change {| files := <[outpath:=[]]> (files w1); dirs := dirs w1;
            stderr := stderr w1; stdout := stdout w1 |}
    with (set_files (<[outpath:=[]]> (files w1)) w1).
  rewrite run_bind, writeheader_run, write_record_run.
  assert (forall r, r ∈ rows -> forall k, k ∈ dict_keys r -> k ∈ fieldnames)
    as Hsub.
  { intros r Hr k Hk. rewrite (rows_keys _ _ _ Hrect Hr) in Hk.
    apply foldl_add_key_elem in Hk as [Hk|Hk]; [by apply elem_of_nil in Hk|done]. }
  assert (filter (fun r => row_get r user_col ∈ keep_users) rows
          = kept_rows) as Hfilter.
  { subst kept_rows. unfold active_rows. apply filter_iff_elem.
    intros r Hr. subst keep_users. by apply keep_users_elem. }
  rewrite run_bind.
  assert (forall (b : bool) (m : M (nat * nat)), (if b then m else m) = m)
    as Hif by (by intros []).
  fold rows. rewrite Hif, for_each_write_if_kept by done.
  cbv zeta. rewrite Hfilter.
  rewrite run_bind. unfold print at 1. rewrite run_ret.
  eexists. split; [reflexivity|]. by split_and!.
Qed.

Lemma filter_all {A} (P : A -> Prop) `{!forall x, Decision (P x)}
    (l : list A) :
  (forall x, x ∈ l -> P x) -> filter P l = l.
Proof.
  induction l as [|x l IH]; intros HP; [done|].
  rewrite filter_cons_True by apply HP, list_elem_of_here.
  f_equal. apply IH. intros y Hy. apply HP. by apply list_elem_of_further.
Qed.

Lemma filter_none {A} (P : A -> Prop) `{!forall x, Decision (P x)}
    (l : list A) :
  (forall x, x ∈ l -> ~ P x) -> filter P l = [].
Proof.
  induction l as [|x l IH]; intros HP; [done|].
  rewrite filter_cons_False by apply HP, list_elem_of_here.
  apply IH. intros y Hy. apply HP. by apply list_elem_of_further.
Qed.

Lemma occurrences_pos (user_col : string) (rows : list row) (r : row) :
  r ∈ rows -> (1 <= occurrences user_col rows (row_get r user_col))%nat.
Proof.
  intros Hr. unfold occurrences.
  destruct (filter _ rows) as [|r' l] eqn:Hfilter; [|cbn; lia].
  by eapply (filter_nil_not_elem_of _ _ r) in Hfilter.
Qed.

Lemma map_filter_sublist {A B} (f : A -> B) (P Q : A -> Prop)
    `{!forall x, Decision (P x), !forall x, Decision (Q x)} (l : list A) :
  (forall x, Q x -> P x) ->
  map f (filter Q l) `sublist_of` map f (filter P l).
Proof.
  intros HQP. induction l as [|x l IH]; [done|].
  rewrite !filter_cons. destruct (decide (Q x)) as [HQ|HQ].
  - rewrite decide_True by auto. cbn. by apply sublist_skip.
  - destruct (decide (P x)); [cbn; by apply sublist_cons|done].
Qed.

(** X12. Raising the threshold only removes rows: from the same input, the
    records written for the higher threshold are, in order, among the
    records written for the lower one. *)
Theorem higher_threshold_writes_sublist
    (inpath outpath user_col : string) (low high : Z) (keep_order : bool)
    (w : world) (fieldnames : list string) (records : list (list string)) :
  files w !! inpath = Some (fieldnames :: records) ->
  rectangular (fieldnames :: records) ->
  user_col ∈ fieldnames ->
  inpath <> outpath ->
  dirname outpath <> EmptyString ->
  low <= high ->
  exists (kept_low kept_high : nat) (w_low w_high : world)
         (written_low written_high : list (list string)),
    filter_users inpath outpath user_col low keep_order w
    = (Return kept_low, w_low) /\
    filter_users inpath outpath user_col high keep_order w
    = (Return kept_high, w_high) /\
    files w_low !! outpath = Some (fieldnames :: written_low) /\
    files w_high !! outpath = Some (fieldnames :: written_high) /\
    written_high `sublist_of` written_low /\
    (kept_high <= kept_low)%nat.
Proof.
  intros Hf Hrect Hu Hpaths Hdir Hle.
  destruct (filter_users_run inpath outpath user_col low keep_order w
              fieldnames records Hf Hrect Hu Hpaths Hdir)
    as (w_low & Hlow & Hfiles_low & _).
  destruct (filter_users_run inpath outpath user_col high keep_order w
              fieldnames records Hf Hrect Hu Hpaths Hdir)
    as (w_high & Hhigh & Hfiles_high & _).
  cbv zeta in *.
  set (rows := DictReader_rows (fieldnames :: records)) in *.
  assert (map (record_of fieldnames) (active_rows user_col high rows)
          `sublist_of`
          map (record_of fieldnames) (active_rows user_col low rows)) as Hsub.
  { unfold active_rows. apply map_filter_sublist. intros r. lia. }
  do 6 eexists. split_and!; [exact Hlow|exact Hhigh| | |exact Hsub|].
  - by rewrite Hfiles_low, lookup_insert_eq.
  - by rewrite Hfiles_high, lookup_insert_eq.
  - apply sublist_length in Hsub. by rewrite !length_map in Hsub.
Qed.

(** X13. Written to a path other than the input path, with a threshold of
    1 or less, every row is kept: on a rectangular input with distinct
    column names the output is the input without its blank records. *)
Theorem threshold_one_keeps_all
    (inpath outpath user_col : string) (threshold : Z) (keep_order : bool)
    (w : world) (fieldnames : list string) (records : list (list string)) :
  files w !! inpath = Some (fieldnames :: records) ->
  rectangular (fieldnames :: records) ->
  NoDup fieldnames ->
  user_col ∈ fieldnames ->
  inpath <> outpath ->
  dirname outpath <> EmptyString ->
  threshold <= 1 ->
  exists w' : world,
    filter_users inpath outpath user_col threshold keep_order w
    = (Return (length (DictReader_rows (fieldnames :: records))), w') /\
    files w' !! outpath
    = Some (fieldnames :: filter (fun record => record <> []) records).
Proof.
  intros Hf Hrect Hnd Hu Hpaths Hdir Hle.
  destruct (filter_users_run inpath outpath user_col threshold keep_order w
              fieldnames records Hf Hrect Hu Hpaths Hdir)
    as (w' & Hrun & Hfiles & _).
  cbv zeta in *.
  set (rows := DictReader_rows (fieldnames :: records)) in *.
  assert (active_rows user_col threshold rows = rows) as Hall.
  { unfold active_rows. apply filter_all.
    intros r Hr. pose proof (occurrences_pos user_col rows r Hr). lia. }
  rewrite Hall in Hrun, Hfiles. exists w'. split; [done|].
  rewrite Hfiles, lookup_insert_eq. subst rows.
  by rewrite rows_of_records.
Qed.

Lemma occurrences_active (user_col : string) (threshold : Z)
    (rows : list row) (uid : string) :
  occurrences user_col (active_rows user_col threshold rows) uid
  = if decide (threshold <= Z.of_nat (occurrences user_col rows uid))
    then occurrences user_col rows uid else 0%nat.
Proof.
  unfold occurrences at 1, active_rows. rewrite list_filter_filter.
  destruct (decide _) as [Hge|Hlt].
  - unfold occurrences in *. f_equal. apply filter_iff_elem.
    intros r _. split; [by intros [? _]|]. intros Hr. split; [done|].
    by rewrite Hr.
  - rewrite filter_none; [done|].
    intros r _ [Hr Hocc]. rewrite Hr in Hocc. lia.
Qed.

Lemma active_rows_idem (user_col : string) (threshold : Z) (rows : list row) :
  active_rows user_col threshold (active_rows user_col threshold rows)
  = active_rows user_col threshold rows.
Proof.
  unfold active_rows at 1. apply filter_all.
  intros r Hr. rewrite occurrences_active.
  apply list_elem_of_filter in Hr as [Hr _]. by rewrite decide_True.
Qed.

(** X14. Filtering is idempotent when every run writes to a path other
    than the one it reads: a second run on the output of a first run, with
    the same threshold and written to another path, writes that output
    again, record for record, and keeps all of its rows. *)
Theorem filter_idempotent
    (inpath out1 out2 user_col : string) (threshold : Z) (keep1 keep2 : bool)
    (w : world) (fieldnames : list string) (records : list (list string)) :
  files w !! inpath = Some (fieldnames :: records) ->
  rectangular (fieldnames :: records) ->
  NoDup fieldnames ->
  user_col ∈ fieldnames ->
  inpath <> out1 -> out1 <> out2 ->
  dirname out1 <> EmptyString -> dirname out2 <> EmptyString ->
  exists (kept : nat) (w1 w2 : world) (content : csv_file),
    filter_users inpath out1 user_col threshold keep1 w = (Return kept, w1) /\
    files w1 !! out1 = Some content /\
    filter_users out1 out2 user_col threshold keep2 w1 = (Return kept, w2) /\
    files w2 !! out2 = Some content.
Proof.
  intros Hf Hrect Hnd Hu Hp1 Hp2 Hd1 Hd2.
  destruct (filter_users_run inpath out1 user_col threshold keep1 w
              fieldnames records Hf Hrect Hu Hp1 Hd1)
    as (w1 & Hrun1 & Hfiles1 & _).
  cbv zeta in *.
  set (rows := DictReader_rows (fieldnames :: records)) in *.
  set (kept_rows := active_rows user_col threshold rows) in *.
  set (written := map (record_of fieldnames) kept_rows) in *.
  assert (files w1 !! out1 = Some (fieldnames :: written)) as Hf1
    by by rewrite Hfiles1, lookup_insert_eq.
  assert (forall r, r ∈ kept_rows ->
            exists record, r = dict (combine fieldnames record) /\
                           length record = length fieldnames) as Hshape.
  { intros r [_ Hr]%list_elem_of_filter.
    apply elem_of_map in Hr as (record & -> & Hrec).
    apply list_elem_of_filter in Hrec as [Hne Hrec].
    exists record. split; [done|]. by apply Hrect. }
  assert (rectangular (fieldnames :: written)) as Hrect1.
  { intros record (r & -> & _)%elem_of_map _.
    unfold record_of. by rewrite length_map. }
  assert (DictReader_rows (fieldnames :: written) = kept_rows) as Hrows1.
  { unfold DictReader_rows. subst written.
    assert (fieldnames <> []) as Hne
      by (intros ->; by apply elem_of_nil in Hu).
    clear Hf1 Hrect1 Hrun1 Hfiles1.
    induction kept_rows as [|r l IH]; [done|].
    cbn [map]. rewrite filter_cons_True.
    - cbn [map]. f_equal.
      + destruct (Hshape r (list_elem_of_here _ _)) as (record & -> & Hlen).
        destruct (row_of_record fieldnames record Hnd Hlen) as (_ & _ & ->).
        done.
      + apply IH. intros r' Hr'. apply Hshape. by apply list_elem_of_further.
    - unfold record_of. destruct fieldnames; done. }
  destruct (filter_users_run out1 out2 user_col threshold keep2 w1
              fieldnames written Hf1 Hrect1 Hu Hp2 Hd2)
    as (w2 & Hrun2 & Hfiles2 & _).
  cbv zeta in *. rewrite Hrows1 in Hrun2, Hfiles2.
  subst kept_rows. rewrite active_rows_idem in Hrun2, Hfiles2.
  exists (length (active_rows user_col threshold rows)), w1, w2,
         (fieldnames :: written).
  split_and!; [done|done|done|].
  by rewrite Hfiles2, lookup_insert_eq.
Qed.

(** X15. Filtering a file onto itself loses it: opening the output empties
    the shared path before the second pass reads it, so the run returns 0
    and leaves one blank record, whatever the threshold. *)
Theorem filter_onto_itself_empties
    (path user_col : string) (threshold : Z) (keep_order : bool)
    (w : world) (fieldnames : list string) (records : list (list string)) :
  files w !! path = Some (fieldnames :: records) ->
  user_col ∈ fieldnames ->
  dirname path <> EmptyString ->
  exists w' : world,
    filter_users path path user_col threshold keep_order w
    = (Return 0%nat, w') /\
    files w' !! path = Some [[]].
Proof.
  intros Hf Hu Hdir. unfold filter_users.
  rewrite run_bind, (count_users_run _ _ _ _ _ Hf Hu).
  rewrite run_bind. unfold makedirs at 1. rewrite decide_False by done.
  set (w1 := {| files := _; dirs := _; stderr := _; stdout := _ |}).
  rewrite run_bind. unfold open_read at 1.
  assert (files w1 !! path = Some (fieldnames :: records)) as -> by done.
  rewrite run_bind. unfold open_write at 1.
  rewrite run_bind. unfold open_read at 1.
  cbn [set_files files]. rewrite lookup_insert_eq.
  cbn [DictReader_fieldnames head default DictReader_rows].
  change {| files := <[path:=[]]> (files w1); dirs := dirs w1;
            stderr := stderr w1; stdout := stdout w1 |}
    with (set_files (<[path:=[]]> (files w1)) w1).
  rewrite run_bind, writeheader_run, write_record_run.
  rewrite run_bind.
  assert (forall (b : bool) (m : M (nat * nat)), (if b then m else m) = m)
    as Hif by (by intros []).
  rewrite Hif. cbn [for_each]. rewrite run_ret.
  rewrite run_bind. unfold print at 1. rewrite run_ret.
  eexists. split; [reflexivity|].
  cbn [files set_files]. by rewrite lookup_insert_eq.
Qed.

Lemma tame_count_users (path inpath user_col : string) :
  tame path (count_users inpath user_col).
Proof.
  unfold count_users.
  apply tame_bind; [apply tame_open_read|intros fh].
  destruct (DictReader_fieldnames fh) as [fieldnames|]; [|by apply tame_raise].
  destruct (bool_decide _); [by apply tame_raise|].
  apply tame_for_each. intros counts r. apply tame_ret.
Qed.

Lemma tame_write_if_kept (outpath user_col : string)
    (fieldnames : list string) (keep_users : gset string)
    (st : nat * nat) (r : row) :
  tame outpath (write_if_kept outpath user_col fieldnames keep_users st r).
Proof.
  destruct st as [kept total]. unfold write_if_kept.
  destruct (bool_decide _); [|apply tame_ret].
  apply tame_bind; [apply tame_writerow|intros _; apply tame_ret].
Qed.

Lemma tame_filter_users
    (inpath outpath user_col : string) (threshold : Z) (keep_order : bool) :
  tame outpath (filter_users inpath outpath user_col threshold keep_order).
Proof.
  unfold filter_users.
  apply tame_bind; [apply tame_count_users|intros counts].
  apply tame_bind; [apply tame_makedirs|intros _].
  apply tame_bind; [apply tame_open_read|intros _].
  apply tame_bind; [apply tame_open_write|intros _].
  apply tame_bind; [apply tame_open_read|intros infh].
  apply tame_bind; [apply tame_writeheader|intros _].
  apply tame_bind.
  { destruct keep_order; apply tame_for_each; intros st r;
      apply tame_write_if_kept. }
  intros [kept total].
  apply tame_bind; [apply tame_print|intros _; apply tame_ret].
Qed.

(** X16. However a run of [filter_users] ends, no file other than the
    output path has been made, emptied or changed. *)
Theorem filter_touches_only_output
    (inpath outpath user_col : string) (threshold : Z) (keep_order : bool)
    (w w' : world) (r : result nat) :
  filter_users inpath outpath user_col threshold keep_order w = (r, w') ->
  forall p, p <> outpath -> files w' !! p = files w !! p.
Proof.
  intros Hrun.
  by apply (tame_filter_users inpath outpath user_col threshold keep_order
              w r w').
Qed.

(** X17. [main], once the arguments are parsed: a threshold below 1 is
    refused with a message and status 2 before any file is read; otherwise
    the status is 0 when [filter_users] returns, and 2, with the error on
    the error stream, when it raises.  No exception escapes. *)
Theorem filter_run_exit_status `{Builtins} (args : Namespace) (w : world) :
  if threshold args <? 1 then
    run args w
    = (Return 2, add_stderr ["--threshold must be >= 1" +:+ newline] w)
  else
    match filter_users (input args) (output args) (user_col args)
                       (threshold args) (keep_order args) w with
    | (Return kept, w1) => run args w = (Return 0, w1)
    | (Raise e, w1) =>
        run args w
        = (Return 2, add_stderr [("Error: " +:+ exn_str e) +:+ newline] w1)
    end.
Proof.
  unfold run. destruct (threshold args <? 1); [reflexivity|].
  unfold try_except. rewrite run_bind.
  destruct (filter_users _ _ _ _ _ w) as [[e|kept] w1] eqn:Hrun.
  - destruct (tame_filter_users _ _ _ _ _ _ _ _ Hrun) as [_ He].
    by rewrite (He e eq_refl).
  - reflexivity.
Qed.

End FilterEdgeFacts.

(** * The statements at concrete inputs *)

Module Examples.
Import Py Csv DedupRatings FilterLowActivityUsers Spec.
Import RecencyFacts RetentionFacts DedupFacts FilterFacts CsvFacts.

#[local] Existing Instance PyAscii.builtins.
Import Samples.

Example sample_rows :
  DictReader_rows (sample_header :: sample_records) = [row_a; row_b; row_c].
Proof. reflexivity. Qed.

Example sample_run :
  exists w',
    dedup_ratings "in/ratings.csv" "out/ratings_dedup.csv"
                  "userId" "movieId" "timestamp" "rating" false sample_world
    = (Return (2%nat, 3%nat), w') /\
    files w' !! "out/ratings_dedup.csv"
    = Some [sample_header; ["1"; "10"; "5"; "200"]; ["2"; "20"; "3"; "50"]].
Proof. eexists. split; vm_compute; reflexivity. Qed.

Example to_int_safe_examples :
  to_int_safe "1700000000" blank = (Return 1700000000, blank) /\
  to_int_safe "12.75" blank = (Return 12, blank) /\
  to_int_safe "-12.75" blank = (Return (-12), blank) /\
  to_int_safe "1e3" blank = (Return 1000, blank) /\
  to_int_safe "N/A" blank
  = (Return 0, add_stderr [warning_text "N/A"] blank) /\
  to_int_safe "inf" blank
  = (Return 0, add_stderr [warning_text "inf"] blank) /\
  to_int_safe EmptyString blank
  = (Return 0, add_stderr [warning_text EmptyString] blank).
Proof. repeat split; vm_compute; reflexivity. Qed.

Lemma retention_newest_wins_witness :
  exists best : table,
    returns (scan "userId" "movieId" "timestamp" [row_a; row_b; row_c])
            blank (best, 3%nat) /\
    dict_get best ("1", "10") = Some (200, row_b) /\
    dict_get (retention_insert best ("1", "10") 200 row_a) ("1", "10")
    = Some (200, row_a) /\
    retention_insert best ("1", "10") 199 row_a = best.
Proof.
  destruct (retention_newest_wins "userId" "movieId" "timestamp"
              [row_a; row_b; row_c] blank) as [Hrule (best & Hret & Hnew)].
  exists best. split; [exact Hret|].
  destruct Hret as [w' Hrun]. vm_compute in Hrun.
  injection Hrun as <- _.
  pose proof (Hrule [(("1", "10"), (200, row_b)); (("2", "20"), (50, row_c))]
                ("1", "10") 200 row_a) as H200.
  pose proof (Hrule [(("1", "10"), (200, row_b)); (("2", "20"), (50, row_c))]
                ("1", "10") 199 row_a) as H199.
  cbn in H200, H199. destruct H200 as [H200 _]. destruct H199 as [_ H199].
  split; [reflexivity|]. split; [apply H200; lia|apply H199; lia].
Defined.

Lemma sample_rectangular : rectangular (sample_header :: sample_records).
Proof. apply rectangular_check. reflexivity. Defined.

(** Two different records tie below the greatest recency of their key:
    the newer third row is the only one of greatest recency. *)
Lemma sample_top_tie_free :
  top_tie_free "userId" "movieId" "timestamp" [tie_a; tie_b; row_b].
Proof.
  assert (row_b ∈ [tie_a; tie_b; row_b]) as Hb by compute_done.
  assert (forall r, greatest "userId" "movieId" "timestamp"
                      [tie_a; tie_b; row_b] r -> r = row_b) as Honly.
  { intros r [Hr Hmax].
    repeat (apply elem_of_cons in Hr as [->|Hr]);
      try (by apply elem_of_nil in Hr); try reflexivity.
    - specialize (Hmax row_b Hb eq_refl). vm_compute in Hmax. by destruct Hmax.
    - specialize (Hmax row_b Hb eq_refl). vm_compute in Hmax. by destruct Hmax. }
  intros r1 r2 H1 H2 _. by rewrite (Honly r1 H1), (Honly r2 H2).
Defined.

Lemma retained_permutation_invariant_witness :
  [tie_a; tie_b; row_b] ≡ₚ [row_b; tie_b; tie_a] /\
  top_tie_free "userId" "movieId" "timestamp" [tie_a; tie_b; row_b] /\
  exists best best' : table,
    returns (scan "userId" "movieId" "timestamp" [tie_a; tie_b; row_b])
            blank (best, 3%nat) /\
    returns (scan "userId" "movieId" "timestamp" [row_b; tie_b; tie_a])
            blank (best', 3%nat) /\
    forall k : key, snd <$> dict_get best k = snd <$> dict_get best' k.
Proof.
  assert ([tie_a; tie_b; row_b] ≡ₚ [row_b; tie_b; tie_a]) as Hperm.
  { change [row_b; tie_b; tie_a] with (rev [tie_a; tie_b; row_b]).
    apply Permutation_rev. }
  split; [exact Hperm|]. split; [exact sample_top_tie_free|].
  exact (proj1 (retained_permutation_invariant "userId" "movieId" "timestamp"
                  [tie_a; tie_b; row_b])
               sample_top_tie_free [row_b; tie_b; tie_a] blank blank Hperm).
Defined.

(** C3, as stated, fails: of two different records with one key and one
    recency the later one is retained, so swapping them changes the
    retained record. *)
Lemma permutation_changes_retained_on_ties :
  ~ (forall (rows rows' : list row) (best best' : table) (n n' : nat),
       rows ≡ₚ rows' ->
       returns (scan "userId" "movieId" "timestamp" rows) blank (best, n) ->
       returns (scan "userId" "movieId" "timestamp" rows') blank (best', n') ->
       forall k : key, snd <$> dict_get best k = snd <$> dict_get best' k).
Proof.
  intros Hclaim.
  assert ([tie_a; tie_b] ≡ₚ [tie_b; tie_a]) as Hperm by apply perm_swap.
  specialize (Hclaim [tie_a; tie_b] [tie_b; tie_a]
                [(("1", "10"), (100, tie_b))] [(("1", "10"), (100, tie_a))]
                2%nat 2%nat Hperm).
  assert (Some tie_b = Some tie_a) as Heq.
  { apply (Hclaim (ltac:(eexists; vm_compute; reflexivity))
                  (ltac:(eexists; vm_compute; reflexivity)) ("1", "10")). }
  discriminate Heq.
Qed.

Lemma to_int_safe_tiers_witness :
  to_int_safe "200" blank = (Return 200, blank) /\
  to_int_safe "-2.5" blank = (Return (-2), blank) /\
  to_int_safe "N/A" blank = (Return 0, add_stderr [warning_text "N/A"] blank) /\
  recency "N/A" <= recency "200".
Proof.
  destruct (to_int_safe_tiers "200" blank) as (Hint & _ & _).
  destruct (to_int_safe_tiers "-2.5" blank) as (_ & Hfloat & _).
  destruct (to_int_safe_tiers "N/A" blank) as (_ & _ & Hfall).
  destruct Hfall as (Hrun & _ & Hle).
  { reflexivity. }
  { left. reflexivity. }
  split; [apply Hint; reflexivity|].
  split.
  { eapply Hfloat; [reflexivity|vm_compute; reflexivity|reflexivity]. }
  split; [exact Hrun|].
  apply Hle. vm_compute. discriminate.
Defined.

(** C4, as stated, fails: the fallback is 0, and a cell that parses to a
    negative number has a smaller recency. *)
Lemma fallback_is_not_minimum :
  ~ (forall (bad good : string) (w : world) (n m : Z) (w1 w2 : world),
       int_of_str bad = None -> float_of_str bad = None ->
       is_Some (int_of_str good) ->
       to_int_safe bad w = (Return n, w1) ->
       to_int_safe good w = (Return m, w2) ->
       n <= m).
Proof.
  intros Hclaim.
  assert (0 <= -5) as Hle; [|lia].
  apply (Hclaim "N/A" "-5" blank 0 (-5)
           (add_stderr [warning_text "N/A"] blank) blank);
    try reflexivity.
  by exists (-5).
Qed.

Lemma missing_column_fails_before_output_witness :
  files sample_world !! "in/ratings.csv" = Some (sample_header :: sample_records) /\
  ("ts" ∉ sample_header) /\
  dedup_ratings "in/ratings.csv" "out/ratings_dedup.csv"
                "userId" "movieId" "ts" "rating" false sample_world
  = (Raise (MissingColumns sample_header), sample_world).
Proof.
  assert ("ts" ∉ sample_header) as Hts by compute_done.
  split; [reflexivity|]. split; [exact Hts|].
  apply (missing_column_fails_before_output
           "in/ratings.csv" "out/ratings_dedup.csv"
           "userId" "movieId" "ts" "rating" false sample_world
           (sample_header :: sample_records) sample_header);
    [reflexivity|reflexivity|].
  right. right. left. exact Hts.
Defined.

Lemma sample_columns :
  "userId" ∈ sample_header /\ "movieId" ∈ sample_header /\
  "timestamp" ∈ sample_header /\ "rating" ∈ sample_header.
Proof. repeat split; compute_done. Defined.

Lemma sample_dirname : dirname "out/ratings_dedup.csv" <> EmptyString.
Proof. vm_compute. discriminate. Defined.

Lemma kept_at_most_total_witness :
  exists (kept total : nat) (w' : world),
    dedup_ratings "in/ratings.csv" "out/ratings_dedup.csv"
                  "userId" "movieId" "timestamp" "rating" false sample_world
    = (Return (kept, total), w') /\
    total = 3%nat /\
    (kept <= total)%nat /\
    (kept = total <->
     NoDup (map (key_of "userId" "movieId")
                (DictReader_rows (sample_header :: sample_records)))).
Proof.
  destruct sample_columns as (Hu & Hi & Ht & Hr).
  destruct (kept_at_most_total "in/ratings.csv" "out/ratings_dedup.csv"
              "userId" "movieId" "timestamp" "rating" false sample_world
              (sample_header :: sample_records) eq_refl sample_rectangular)
    as [Hany Hrun].
  destruct (Hrun sample_header sample_records eq_refl
              Hu Hi Ht Hr sample_dirname) as (kept & total & w' & Hret).
  exists kept, total, w'. split; [exact Hret|].
  exact (Hany kept total w' Hret).
Defined.

Lemma recency_order_is_stable_sort_witness :
  exists (best items : table) (total : nat) (w' : world),
    returns (scan "userId" "movieId" "timestamp"
                  (DictReader_rows (sample_header :: sample_records)))
            sample_world (best, total) /\
    dedup_ratings "in/ratings.csv" "out/ratings_dedup.csv"
                  "userId" "movieId" "timestamp" "rating" true sample_world
    = (Return (length best, total), w') /\
    files w' !! "out/ratings_dedup.csv"
    = Some (output_file (output_header sample_header best) items) /\
    StronglySorted by_ts items /\
    items ≡ₚ best /\
    (forall t, with_ts t items = with_ts t best) /\
    length items = length best.
Proof.
  destruct sample_columns as (Hu & Hi & Ht & Hr).
  exact (recency_order_is_stable_sort "in/ratings.csv" "out/ratings_dedup.csv"
           "userId" "movieId" "timestamp" "rating" sample_world
           sample_header sample_records
           eq_refl sample_rectangular Hu Hi Ht Hr sample_dirname).
Defined.

Lemma dedup_idempotent_witness :
  exists w1 w2 : world,
    dedup_ratings "in/ratings.csv" "out/ratings_dedup.csv"
                  "userId" "movieId" "timestamp" "rating" true sample_world
    = (Return (2%nat, 3%nat), w1) /\
    files w1 !! "out/ratings_dedup.csv"
    = Some [sample_header; ["2"; "20"; "3"; "50"]; ["1"; "10"; "5"; "200"]] /\
    dedup_ratings "out/ratings_dedup.csv" "out/again.csv"
                  "userId" "movieId" "timestamp" "rating" true w1
    = (Return (2%nat, 2%nat), w2) /\
    files w2 !! "out/again.csv"
    = Some [sample_header; ["2"; "20"; "3"; "50"]; ["1"; "10"; "5"; "200"]].
Proof.
  destruct sample_columns as (Hu & Hi & Ht & Hr).
  assert (dirname "out/again.csv" <> EmptyString) as Hdir2
    by (vm_compute; discriminate).
  destruct (dedup_idempotent "in/ratings.csv" "out/ratings_dedup.csv"
              "out/again.csv"
              "userId" "movieId" "timestamp" "rating" true true sample_world
              sample_header sample_records
              eq_refl sample_rectangular Hu Hi Ht Hr sample_dirname Hdir2)
    as (best & items & again & header & total & w1 & w2 & Hscan & _ & -> & ->
        & -> & Hrun1 & Hf1 & _ & _ & Hrun2 & Hf2 & _ & Hsame & Hsorted).
  rewrite (proj2 Hsame (or_intror (Hsorted eq_refl))) in Hf2.
  destruct Hscan as [w' Hs]. vm_compute in Hs. injection Hs as <- <- _.
  exists w1, w2. split; [exact Hrun1|]. split; [exact Hf1|].
  split; [exact Hrun2|exact Hf2].
Defined.

(** C7, as stated, fails: a second run that asks for the recency order, on
    an output written in table order, writes the records of that output in
    another order. *)
Lemma second_run_reorders_table_order :
  ~ (forall (w : world) (inpath out1 out2 : string) (keep1 keep2 : bool)
            (counts1 counts2 : nat * nat) (w1 w2 : world)
            (content1 content2 : csv_file),
       dedup_ratings inpath out1 "userId" "movieId" "timestamp" "rating"
                     keep1 w
       = (Return counts1, w1) ->
       files w1 !! out1 = Some content1 ->
       dedup_ratings out1 out2 "userId" "movieId" "timestamp" "rating"
                     keep2 w1
       = (Return counts2, w2) ->
       files w2 !! out2 = Some content2 ->
       content2 = content1).
Proof.
  intros Hclaim.
  set (run1 := dedup_ratings "in/ratings.csv" "out/ratings_dedup.csv"
                 "userId" "movieId" "timestamp" "rating" false sample_world).
  set (run2 := dedup_ratings "out/ratings_dedup.csv" "out/again.csv"
                 "userId" "movieId" "timestamp" "rating" true (snd run1)).
  specialize (Hclaim sample_world "in/ratings.csv" "out/ratings_dedup.csv"
                "out/again.csv" false true (2%nat, 3%nat) (2%nat, 2%nat)
                (snd run1) (snd run2)
                [sample_header; ["1"; "10"; "5"; "200"]; ["2"; "20"; "3"; "50"]]
                [sample_header; ["2"; "20"; "3"; "50"]; ["1"; "10"; "5"; "200"]]).
  assert ([sample_header; ["2"; "20"; "3"; "50"]; ["1"; "10"; "5"; "200"]]
          = [sample_header; ["1"; "10"; "5"; "200"]; ["2"; "20"; "3"; "50"]])
    as Heq; [|discriminate Heq].
  apply Hclaim; vm_compute; reflexivity.
Qed.



(** C2. With the default flags the recency is read from the rating
    column: of two ratings of one pair, [main] keeps the one with the
    higher rating and the older timestamp, where [dedup_ratings] called
    with the columns in their places keeps the newer one. *)
Theorem main_reads_recency_from_rating_column :
  (exists w',
     main ["--input"; "in/ratings.csv"; "--output"; "out/ratings_dedup.csv"]
          swapped_world
     = (Return 0, w') /\
     files w' !! "out/ratings_dedup.csv"
     = Some [sample_header; ["1"; "10"; "5"; "100"]]) /\
  (exists w',
     dedup_ratings "in/ratings.csv" "out/ratings_dedup.csv"
                   "userId" "movieId" "timestamp" "rating" false swapped_world
     = (Return (1%nat, 2%nat), w') /\
     files w' !! "out/ratings_dedup.csv"
     = Some [sample_header; ["1"; "10"; "4"; "200"]]).
Proof. split; eexists; split; vm_compute; reflexivity. Qed.

End Examples.

(** * The further properties at concrete inputs *)

Module EdgeExamples.
Import Py Csv Spec Samples Examples.
Import DedupEdgeFacts DedupTameFacts FilterEdgeFacts.

#[local] Existing Instance PyAscii.builtins.

Lemma distinct_rectangular : rectangular (sample_header :: distinct_records).
Proof. apply CsvFacts.rectangular_check. reflexivity. Defined.

Lemma sample_header_distinct : NoDup sample_header.
Proof. compute_done. Defined.

Lemma input_errors_leave_no_output_witness :
  DedupRatings.dedup_ratings "in/none.csv" "out/ratings_dedup.csv"
    "userId" "movieId" "timestamp" "rating" false sample_world
  = (Raise (FileNotFoundError "in/none.csv"),
     add_stderr ["Error: input file does not exist: in/none.csv" +:+ newline]
                sample_world).
Proof.
  destruct (input_errors_leave_no_output "in/none.csv" "out/ratings_dedup.csv"
              "userId" "movieId" "timestamp" "rating" false sample_world)
    as [Hmissing _].
  exact (Hmissing eq_refl).
Defined.

Lemma header_only_input_witness :
  DedupRatings.dedup_ratings "in/ratings.csv" "out/ratings_dedup.csv"
    "userId" "movieId" "timestamp" "rating" false header_only_world
  = (Return (0%nat, 0%nat),
     after_write "out/ratings_dedup.csv" [sample_header] [] header_only_world).
Proof.
  destruct sample_columns as (Hu & Hi & Ht & Hr).
  apply (header_only_input "in/ratings.csv" "out/ratings_dedup.csv"
           "userId" "movieId" "timestamp" "rating" false header_only_world
           sample_header [[]]);
    [reflexivity|by repeat constructor|exact Hu|exact Hi|exact Ht|exact Hr
    |exact sample_dirname].
Defined.

Lemma bare_output_name_fails_after_scan_witness :
  bare_name "ratings_dedup.csv" /\
  DedupRatings.dedup_ratings "in/ratings.csv" "ratings_dedup.csv"
    "userId" "movieId" "timestamp" "rating" false distinct_world
  = (Raise (NoSuchFileOrDirectory EmptyString),
     add_stderr [warning_text "N/A"] distinct_world).
Proof.
  assert (bare_name "ratings_dedup.csv") as Hbare by (by repeat constructor).
  split; [exact Hbare|].
  destruct sample_columns as (Hu & Hi & Ht & Hr).
  exact (bare_output_name_fails_after_scan "in/ratings.csv" "ratings_dedup.csv"
           "userId" "movieId" "timestamp" "rating" false distinct_world
           sample_header distinct_records eq_refl distinct_rectangular
           Hu Hi Ht Hr Hbare).
Defined.

Lemma one_warning_per_unparsable_row_witness :
  exists (counts : nat * nat) (w' : world),
    DedupRatings.dedup_ratings "in/ratings.csv" "out/ratings_dedup.csv"
      "userId" "movieId" "timestamp" "rating" false distinct_world
    = (Return counts, w') /\
    stderr w' = [warning_text "N/A"] /\
    stdout w' = [].
Proof.
  destruct sample_columns as (Hu & Hi & Ht & Hr).
  exact (one_warning_per_unparsable_row "in/ratings.csv"
           "out/ratings_dedup.csv" "userId" "movieId" "timestamp" "rating"
           false distinct_world sample_header distinct_records
           eq_refl distinct_rectangular Hu Hi Ht Hr sample_dirname).
Defined.

Lemma one_row_per_key_witness :
  exists (counts : nat * nat) (w' : world) (content : csv_file),
    DedupRatings.dedup_ratings "in/ratings.csv" "in/ratings.csv"
      "userId" "movieId" "timestamp" "rating" false sample_world
    = (Return counts, w') /\
    files w' !! "in/ratings.csv" = Some content /\
    NoDup (map (key_of "userId" "movieId") (DictReader_rows content)) /\
    (forall k,
       k ∈ map (key_of "userId" "movieId") (DictReader_rows content)
       <-> k ∈ map (key_of "userId" "movieId")
                   (DictReader_rows (sample_header :: sample_records))) /\
    (false = false ->
     map (key_of "userId" "movieId") (DictReader_rows content)
     = first_seen (map (key_of "userId" "movieId")
                       (DictReader_rows (sample_header :: sample_records)))).
Proof.
  destruct sample_columns as (Hu & Hi & Ht & Hr).
  assert (dirname "in/ratings.csv" <> EmptyString) as Hdir
    by (vm_compute; discriminate).
  exact (one_row_per_key "in/ratings.csv" "in/ratings.csv"
           "userId" "movieId" "timestamp" "rating" false sample_world
           sample_header sample_records
           eq_refl sample_rectangular Hu Hi Ht Hr Hdir).
Defined.

Lemma output_records_are_input_records_witness :
  exists (kept total : nat) (w' : world) (written : list (list string)),
    DedupRatings.dedup_ratings "in/ratings.csv" "out/ratings_dedup.csv"
      "userId" "movieId" "timestamp" "rating" true sample_world
    = (Return (kept, total), w') /\
    files w' !! "out/ratings_dedup.csv" = Some (sample_header :: written) /\
    length written = kept /\
    forall record, record ∈ written ->
                   record ∈ sample_records /\ record <> [].
Proof.
  destruct sample_columns as (Hu & Hi & Ht & Hr).
  exact (output_records_are_input_records "in/ratings.csv"
           "out/ratings_dedup.csv" "userId" "movieId" "timestamp" "rating"
           true sample_world sample_header sample_records
           eq_refl sample_rectangular sample_header_distinct
           Hu Hi Ht Hr sample_dirname).
Defined.

Lemma distinct_keys_copy_input_witness :
  exists (n : nat) (w' : world),
    DedupRatings.dedup_ratings "in/ratings.csv" "out/ratings_dedup.csv"
      "userId" "movieId" "timestamp" "rating" false distinct_world
    = (Return (n, n), w') /\
    files w' !! "out/ratings_dedup.csv"
    = Some [sample_header; ["1"; "10"; "4"; "100"]; ["2"; "20"; "3"; "N/A"]].
Proof.
  destruct sample_columns as (Hu & Hi & Ht & Hr).
  assert (NoDup (map (key_of "userId" "movieId")
                     (DictReader_rows (sample_header :: distinct_records))))
    as Hkeys by compute_done.
  exact (distinct_keys_copy_input "in/ratings.csv" "out/ratings_dedup.csv"
           "userId" "movieId" "timestamp" "rating" distinct_world
           sample_header distinct_records
           eq_refl distinct_rectangular sample_header_distinct Hkeys
           Hu Hi Ht Hr sample_dirname).
Defined.

Lemma dedup_touches_only_output_witness :
  files (snd (DedupRatings.dedup_ratings "in/ratings.csv"
                "out/ratings_dedup.csv" "userId" "movieId" "timestamp"
                "rating" false sample_world))
    !! "in/ratings.csv"
  = Some (sample_header :: sample_records).
Proof.
  assert ("in/ratings.csv" <> "out/ratings_dedup.csv") as Hp by discriminate.
  destruct (DedupRatings.dedup_ratings "in/ratings.csv"
              "out/ratings_dedup.csv" "userId" "movieId" "timestamp"
              "rating" false sample_world) as [r w'] eqn:Hrun.
  exact (dedup_touches_only_output _ _ _ _ _ _ _ _ _ _ Hrun _ Hp).
Defined.

Lemma count_users_counts_witness :
  exists counts : gmap string nat,
    FilterLowActivityUsers.count_users "in/ratings.csv" "userId" sample_world
    = (Return counts, sample_world) /\
    counts !! "1" = Some 2%nat /\ counts !! "2" = Some 1%nat /\
    counts !! "3" = None.
Proof.
  destruct sample_columns as (Hu & _).
  destruct (count_users_counts "in/ratings.csv" "userId" sample_world
              sample_header sample_records eq_refl sample_rectangular Hu)
    as (counts & Hrun & Hcounts).
  exists counts. split; [exact Hrun|].
  split; [exact (Hcounts "1")|]. split; [exact (Hcounts "2")|].
  exact (Hcounts "3").
Defined.

Lemma counting_errors_leave_no_output_witness :
  FilterLowActivityUsers.filter_users "in/ratings.csv" "out/active.csv"
    "user" 2 false sample_world
  = (Raise (UserColumnNotFound "user" sample_header), sample_world).
Proof.
  destruct (counting_errors_leave_no_output "in/ratings.csv" "out/active.csv"
              "user" 2 false sample_world) as (_ & _ & Hcol).
  apply (Hcol sample_header sample_records eq_refl). compute_done.
Defined.

Lemma sample_paths : "in/ratings.csv" <> "out/active.csv".
Proof. discriminate. Defined.

Lemma active_dirname : dirname "out/active.csv" <> EmptyString.
Proof. vm_compute. discriminate. Defined.

Lemma higher_threshold_writes_sublist_witness :
  exists (kept_low kept_high : nat) (w_low w_high : world)
         (written_low written_high : list (list string)),
    FilterLowActivityUsers.filter_users "in/ratings.csv" "out/active.csv"
      "userId" 1 false sample_world
    = (Return kept_low, w_low) /\
    FilterLowActivityUsers.filter_users "in/ratings.csv" "out/active.csv"
      "userId" 2 false sample_world
    = (Return kept_high, w_high) /\
    files w_low !! "out/active.csv" = Some (sample_header :: written_low) /\
    files w_high !! "out/active.csv" = Some (sample_header :: written_high) /\
    written_high `sublist_of` written_low /\
    (kept_high <= kept_low)%nat.
Proof.
  destruct sample_columns as (Hu & _).
  assert (1 <= 2) as Hle by lia.
  exact (higher_threshold_writes_sublist "in/ratings.csv" "out/active.csv"
           "userId" 1 2 false sample_world sample_header sample_records
           eq_refl sample_rectangular Hu sample_paths active_dirname Hle).
Defined.

Lemma threshold_one_keeps_all_witness :
  exists w' : world,
    FilterLowActivityUsers.filter_users "in/ratings.csv" "out/active.csv"
      "userId" 1 false sample_world
    = (Return 3%nat, w') /\
    files w' !! "out/active.csv" = Some (sample_header :: sample_records).
Proof.
  destruct sample_columns as (Hu & _).
  assert (1 <= 1) as Hle by lia.
  exact (threshold_one_keeps_all "in/ratings.csv" "out/active.csv"
           "userId" 1 false sample_world sample_header sample_records
           eq_refl sample_rectangular sample_header_distinct Hu
           sample_paths active_dirname Hle).
Defined.

Lemma filter_idempotent_witness :
  exists (kept : nat) (w1 w2 : world) (content : csv_file),
    FilterLowActivityUsers.filter_users "in/ratings.csv" "out/active.csv"
      "userId" 2 false sample_world
    = (Return kept, w1) /\
    files w1 !! "out/active.csv" = Some content /\
    FilterLowActivityUsers.filter_users "out/active.csv" "out/again.csv"
      "userId" 2 true w1
    = (Return kept, w2) /\
    files w2 !! "out/again.csv" = Some content.
Proof.
  destruct sample_columns as (Hu & _).
  assert ("out/active.csv" <> "out/again.csv") as Hp2 by discriminate.
  assert (dirname "out/again.csv" <> EmptyString) as Hd2
    by (vm_compute; discriminate).
  exact (filter_idempotent "in/ratings.csv" "out/active.csv" "out/again.csv"
           "userId" 2 false true sample_world sample_header sample_records
           eq_refl sample_rectangular sample_header_distinct Hu
           sample_paths Hp2 active_dirname Hd2).
Defined.

Lemma filter_onto_itself_empties_witness :
  exists w' : world,
    FilterLowActivityUsers.filter_users "in/ratings.csv" "in/ratings.csv"
      "userId" 1 false sample_world
    = (Return 0%nat, w') /\
    files w' !! "in/ratings.csv" = Some [[]].
Proof.
  destruct sample_columns as (Hu & _).
  assert (dirname "in/ratings.csv" <> EmptyString) as Hdir
    by (vm_compute; discriminate).
  exact (filter_onto_itself_empties "in/ratings.csv" "userId" 1 false
           sample_world sample_header sample_records eq_refl Hu Hdir).
Defined.

Lemma filter_touches_only_output_witness :
  files (snd (FilterLowActivityUsers.filter_users "in/ratings.csv"
                "out/active.csv" "userId" 2 false sample_world))
    !! "in/ratings.csv"
  = Some (sample_header :: sample_records).
Proof.
  destruct (FilterLowActivityUsers.filter_users "in/ratings.csv"
              "out/active.csv" "userId" 2 false sample_world)
    as [r w'] eqn:Hrun.
  exact (filter_touches_only_output _ _ _ _ _ _ _ _ Hrun _ sample_paths).
Defined.

End EdgeExamples.
